(** * Admission control and shared-state cache: a shallow embedding

    Source files: [app/core/rate_limiting.py] and [app/core/cache.py].

    The Python code talks to a Redis server through a client object that is
    handed to the constructor of [RateLimiter] and [CacheManager].  The
    embedding keeps that shape: the client is a type class, the code is
    written once against the class, and an in-memory server is one instance
    of it.  Exceptions and [print] are effects of a small monad. *)

From stdpp Require Import base option list gmap strings pretty sorting.
From Stdlib Require Import ZArith Ascii.

Set Warnings "-clear-no-such-hyp".

Open Scope string_scope.
Open Scope Z_scope.

(** ** Python values *)

(** The values that travel through the cache and the decorator.  A [str] is
    written as the bytes of its UTF-8 encoding, so ASCII text is itself;
    [bytes] are a string of 8-bit characters.  A [dict] keeps its items in
    insertion order.  Floats are left out. *)
#[warnings="-register-all"]
Inductive pyval :=
  | VNone
  | VBool (b : bool)
  | VInt (n : Z)
  | VStr (s : string)
  | VBytes (b : string)
  | VList (l : list pyval)
  | VTuple (l : list pyval)
  | VDict (d : list (pyval * pyval)).

(** ** Exceptions *)

(** The exception classes that occur in the two modules and in the libraries
    they call.  [isinstance_of] is Python's subclass relation on them, which
    decides what a class-restricted [except] clause catches.  [NotModelled]
    is no Python class: the library fragment below raises it on input it
    does not cover (float literals in JSON text). *)
Inductive exn_class :=
  | ConnectionError | TimeoutError | ResponseError
  | TypeError | ValueError | JSONDecodeError
  | UnicodeDecodeError | UnicodeEncodeError
  | RecursionError | PicklingError | UnpicklingError
  | IndexError | AttributeError | RuntimeError
  | HTTPExceptionClass
  | NotModelled.

Global Instance exn_class_eq_dec : EqDecision exn_class.
Proof. solve_decision. Defined.

(** [fastapi.HTTPException(status_code, detail, headers)] *)
Record http_error := HttpError {
  status_code : Z;
  detail : list (string * pyval);
  headers : list (string * string)
}.

Inductive exn :=
  | Exn (cls : exn_class) (msg : string)
  | HTTPException (h : http_error).

Definition exn_cls (e : exn) : exn_class :=
  match e with
  | Exn c _ => c
  | HTTPException _ => HTTPExceptionClass
  end.

(** [str(e)] *)
Definition str_exn (e : exn) : string :=
  match e with
  | Exn _ msg => msg
  | HTTPException h => pretty (status_code h)
  end.

Definition isinstance_of (c base : exn_class) : bool :=
  match base, c with
  | ValueError, (ValueError | JSONDecodeError
                 | UnicodeDecodeError | UnicodeEncodeError) => true
  | _, _ => bool_decide (c = base)
  end.

Inductive res (A : Type) :=
  | Ok (a : A)
  | Raise (e : exn).
Arguments Ok {A} a.
Arguments Raise {A} e.

(** ** The effect monad: state, exceptions *)

Definition M (W A : Type) : Type := W → res A * W.

Definition ret {W A} (a : A) : M W A := λ w, (Ok a, w).
Definition raise {W A} (e : exn) : M W A := λ w, (Raise e, w).
Definition bind {W A B} (m : M W A) (k : A → M W B) : M W B :=
  λ w, match m w with
       | (Ok a, w') => k a w'
       | (Raise e, w') => (Raise e, w')
       end.

(** [try: m except Exception as e: h e] *)
Definition try_except {W A} (m : M W A) (h : exn → M W A) : M W A :=
  λ w, match m w with
       | (Ok a, w') => (Ok a, w')
       | (Raise e, w') => h e w'
       end.

(** [try: m except (c1, c2, ...): h]: other exceptions pass through. *)
Definition try_except_on {W A} (cs : list exn_class) (m : M W A) (h : M W A)
    : M W A :=
  λ w, match m w with
       | (Ok a, w') => (Ok a, w')
       | (Raise e, w') =>
           if existsb (isinstance_of (exn_cls e)) cs then h w'
           else (Raise e, w')
       end.

Global Instance M_ret {W} : MRet (M W) := λ A, @ret W A.
Global Instance M_bind {W} : MBind (M W) := λ A B k m, @bind W A B m k.

(** ** The Redis client interface *)

(** The sorted-set commands that [RateLimiter.is_allowed] queues on a
    pipeline. *)
Inductive zcmd :=
  | ZRemRangeByScore (key : string) (lo hi : Z)
  | ZCard (key : string)
  | ZAdd (key member : string) (score : Z)
  | Expire (key : string) (seconds : Z).

(** What [setex] is given: a [str] (from [json.dumps]) or [bytes]. *)
Inductive payload :=
  | PText (s : string)
  | PBytes (b : string).

(** The methods of the client object the two modules call.  Every method
    takes the server's clock (in seconds) and may raise.  [pipeline_execute]
    stands for [pipe = redis.pipeline(); ...; pipe.execute()]: queuing is
    local to the client, only [execute] talks to the server. *)
Class RedisClient (R : Type) := {
  r_get : Z → string → R → res (option string) * R;
  r_setex : Z → string → Z → payload → R → res bool * R;
  r_delete : Z → list string → R → res Z * R;
  r_exists : Z → string → R → res Z * R;
  r_keys : Z → string → R → res (list string) * R;
  r_zremrangebyscore : Z → string → Z → Z → R → res Z * R;
  r_zcard : Z → string → R → res Z * R;
  r_pipeline_execute : Z → list zcmd → R → res (list Z) * R
}.

(** The world a handler runs in: the wall clock read by [time.time()], the
    server behind the client, and what [print] has written. *)
Record world (R : Type) := World {
  clock : Z;
  redis : R;
  stdout : list string
}.
Arguments World {R} _ _ _.
Arguments clock {R} _.
Arguments redis {R} _.
Arguments stdout {R} _.

Section Effects.
Context {R : Type}.

(** [int(time.time())] *)
Definition time_time : M (world R) Z := λ w, (Ok (clock w), w).

Definition print (line : string) : M (world R) unit :=
  λ w, (Ok tt, World (clock w) (redis w) (stdout w ++ [line])).

(** A call of a client method, at the current clock. *)
Definition call {A} (op : Z → R → res A * R) : M (world R) A :=
  λ w, let '(r, s) := op (clock w) (redis w) in
       (r, World (clock w) s (stdout w)).

(** Time passing between two calls. *)
Definition at_time (t : Z) (w : world R) : world R :=
  World t (redis w) (stdout w).
End Effects.

(** [results[i]] on a Python list. *)
Definition py_index {W} (l : list Z) (i : nat) : M W Z :=
  match l !! i with
  | Some x => ret x
  | None => raise (Exn IndexError "list index out of range")
  end.

(** ** [app/core/rate_limiting.py] *)

Module RateLimiter.
Section RateLimiter.
Context `{RedisClient R}.

Definition is_allowed (key : string) (limit window : Z)
    : M (world R) bool :=
  try_except
    (current_time ← time_time;
     let window_start := current_time - window in
     results ← call (λ now, r_pipeline_execute now
                  [ ZRemRangeByScore key 0 window_start;
                    ZCard key;
                    ZAdd key (pretty current_time) current_time;
                    Expire key window ]);
     current_count ← py_index results 1;
     ret (bool_decide (current_count < limit)))
    (λ e, print ("Rate limiting error: " +:+ str_exn e);;
          ret true).

Definition get_remaining_requests (key : string) (limit window : Z)
    : M (world R) Z :=
  try_except
    (current_time ← time_time;
     let window_start := current_time - window in
     _ ← call (λ now, r_zremrangebyscore now key 0 window_start);
     current_count ← call (λ now, r_zcard now key);
     ret (Z.max 0 (limit - current_count)))
    (λ _, ret limit).
End RateLimiter.
End RateLimiter.

(** ** An in-memory Redis server *)

(** A key holds a byte string or a sorted set (member ↦ score), and may
    carry a deadline after which the server no longer shows it.  Time is the
    integer-second clock of the world, and a command runs within the second
    that the world shows.  The server itself counts a lifetime in
    milliseconds from the moment it runs the command, so a deadline [d] of
    the model stands for some instant of the second [d]: the key is there
    at every clock reading before [d] and gone at every reading after [d];
    what the model shows at the reading [d] itself is not to be relied
    on. *)
Inductive rvalue :=
  | RString (b : string)
  | RZSet (z : gmap string Z).

Record entry := Entry { e_value : rvalue; e_deadline : option Z }.

Module MemRedis.

Definition alive (now : Z) (e : entry) : bool :=
  match e_deadline e with
  | Some d => bool_decide (now < d)
  | None => true
  end.

Definition fetch (now : Z) (key : string) (db : gmap string entry)
    : option entry :=
  match db !! key with
  | Some e => if alive now e then Some e else None
  | None => None
  end.

Definition wrongtype : exn :=
  Exn ResponseError
    "WRONGTYPE Operation against a key holding the wrong kind of value".

(** Scores inside [lo, hi] are removed by ZREMRANGEBYSCORE. *)
Definition outside (lo hi : Z) (p : string * Z) : Prop :=
  ¬ (lo ≤ p.2 ≤ hi).
Global Instance outside_dec lo hi p : Decision (outside lo hi p).
Proof. unfold outside. apply _. Defined.

(** One queued command.  EXPIRE gives the key the deadline [now + seconds],
    in the whole seconds of the clock (see [entry]); the server refuses a
    lifetime that leaves its 63-bit range of milliseconds, which the model
    does not bound. *)
Definition zexec (now : Z) (c : zcmd) (db : gmap string entry)
    : res Z * gmap string entry :=
  match c with
  | ZRemRangeByScore key lo hi =>
      match fetch now key db with
      | None => (Ok 0, db)
      | Some (Entry (RString _) _) => (Raise wrongtype, db)
      | Some (Entry (RZSet z) d) =>
          let z' := filter (outside lo hi) z in
          (Ok (Z.of_nat (size z) - Z.of_nat (size z')),
           if decide (size z' = 0%nat) then delete key db
           else <[key := Entry (RZSet z') d]> db)
      end
  | ZCard key =>
      match fetch now key db with
      | None => (Ok 0, db)
      | Some (Entry (RString _) _) => (Raise wrongtype, db)
      | Some (Entry (RZSet z) _) => (Ok (Z.of_nat (size z)), db)
      end
  | ZAdd key member score =>
      match fetch now key db with
      | None => (Ok 1, <[key := Entry (RZSet {[member := score]}) None]> db)
      | Some (Entry (RString _) _) => (Raise wrongtype, db)
      | Some (Entry (RZSet z) d) =>
          (Ok (if z !! member is Some _ then 0 else 1),
           <[key := Entry (RZSet (<[member := score]> z)) d]> db)
      end
  | Expire key seconds =>
      match fetch now key db with
      | None => (Ok 0, db)
      | Some e =>
          (Ok 1,
           if decide (seconds ≤ 0) then delete key db
           else <[key := Entry (e_value e) (Some (now + seconds))]> db)
      end
  end.

(** MULTI/EXEC: every queued command runs, in order; a command that fails
    does not stop the ones after it, and [execute] raises the first
    failure once all have run. *)
Fixpoint run_queue (now : Z) (cs : list zcmd) (db : gmap string entry)
    : list (res Z) * gmap string entry :=
  match cs with
  | [] => ([], db)
  | c :: cs' =>
      let '(r, db1) := zexec now c db in
      let '(rs, db2) := run_queue now cs' db1 in
      (r :: rs, db2)
  end.

Fixpoint collect (rs : list (res Z)) : res (list Z) :=
  match rs with
  | [] => Ok []
  | Raise e :: _ => Raise e
  | Ok x :: rs' =>
      match collect rs' with
      | Ok xs => Ok (x :: xs)
      | Raise e => Raise e
      end
  end.

Definition pipeline_execute (now : Z) (cs : list zcmd)
    (db : gmap string entry) : res (list Z) * gmap string entry :=
  let '(rs, db') := run_queue now cs db in (collect rs, db').

Definition get (now : Z) (key : string) (db : gmap string entry)
    : res (option string) * gmap string entry :=
  match fetch now key db with
  | None => (Ok None, db)
  | Some (Entry (RString b) _) => (Ok (Some b), db)
  | Some (Entry (RZSet _) _) => (Raise wrongtype, db)
  end.

(** A [str] goes over the wire as its UTF-8 bytes; the model writes a
    [str] as those bytes already. *)
Definition encode (p : payload) : string :=
  match p with PText s => s | PBytes b => b end.

Definition setex (now : Z) (key : string) (ttl : Z) (p : payload)
    (db : gmap string entry) : res bool * gmap string entry :=
  if decide (ttl ≤ 0) then
    (Raise (Exn ResponseError "invalid expire time in 'setex' command"), db)
  else
    (Ok true, <[key := Entry (RString (encode p)) (Some (now + ttl))]> db).

Fixpoint delete_keys (now : Z) (keys : list string)
    (db : gmap string entry) : Z * gmap string entry :=
  match keys with
  | [] => (0, db)
  | k :: ks =>
      let hit := if fetch now k db is Some _ then 1 else 0 in
      let '(n, db') := delete_keys now ks (delete k db) in
      (hit + n, db')
  end.

Definition exists_ (now : Z) (key : string) (db : gmap string entry)
    : res Z * gmap string entry :=
  (Ok (if fetch now key db is Some _ then 1 else 0), db).

(** The matching of the rest of a pattern against the rest of a key, for
    patterns of [*], [?] and literal characters.  The server's character
    classes in brackets and its backslash escape are not modelled. *)
Fixpoint glob (p s : list ascii) : bool :=
  match p with
  | [] => match s with [] => true | _ => false end
  | c :: p' =>
      if bool_decide (c = "*"%char) then
        (fix star (s : list ascii) : bool :=
           glob p' s || match s with [] => false | _ :: s' => star s' end) s
      else if bool_decide (c = "?"%char) then
        match s with [] => false | _ :: s' => glob p' s' end
      else
        match s with
        | [] => false
        | c' :: s' => bool_decide (c = c') && glob p' s'
        end
  end.

(** The patterns the model covers: no bracket, no backslash, and at most
    a thousand stars (the server gives up on a pattern that nests its
    stars deeper). *)
Definition simple_pattern (pattern : string) : bool :=
  let p := String.list_ascii_of_string pattern in
  forallb (λ c, negb (bool_decide (c = "["%char))
                && negb (bool_decide (c = "\"%char))) p
  && bool_decide (length (filter (λ c, c = "*"%char) p) ≤ 1000)%nat.

(** What KEYS takes for a match: the lone pattern [*] takes every key;
    otherwise the matching starts only when key and pattern both have a
    character, so that an empty key is matched by the empty pattern
    alone. *)
Definition key_matches (pattern key : string) : bool :=
  bool_decide (pattern = "*")
  || match String.list_ascii_of_string key with
     | [] => bool_decide (pattern = EmptyString)
     | s => glob (String.list_ascii_of_string pattern) s
     end.

(** KEYS pattern.  A pattern outside the model is refused. *)
Definition keys (now : Z) (pattern : string) (db : gmap string entry)
    : res (list string) * gmap string entry :=
  if simple_pattern pattern then
    (Ok (filter (λ k, key_matches pattern k ∧ is_Some (fetch now k db))
                (map_to_list db).*1), db)
  else
    (Raise (Exn NotModelled "character class or escape in a pattern"), db).

End MemRedis.

Global Instance mem_redis : RedisClient (gmap string entry) := {
  r_get := MemRedis.get;
  r_setex := MemRedis.setex;
  r_delete := λ now ks db,
    let '(n, db') := MemRedis.delete_keys now ks db in (Ok n, db');
  r_exists := MemRedis.exists_;
  r_keys := MemRedis.keys;
  r_zremrangebyscore := λ now key lo hi,
    MemRedis.zexec now (ZRemRangeByScore key lo hi);
  r_zcard := λ now key, MemRedis.zexec now (ZCard key);
  r_pipeline_execute := MemRedis.pipeline_execute
}.

(** A server that cannot be reached: every method raises. *)
Definition unreachable : exn :=
  Exn ConnectionError "Error 111 connecting to redis. Connection refused.".

Inductive down := Down.

Global Instance down_redis : RedisClient down := {
  r_get := λ _ _ s, (Raise unreachable, s);
  r_setex := λ _ _ _ _ s, (Raise unreachable, s);
  r_delete := λ _ _ s, (Raise unreachable, s);
  r_exists := λ _ _ s, (Raise unreachable, s);
  r_keys := λ _ _ s, (Raise unreachable, s);
  r_zremrangebyscore := λ _ _ _ _ s, (Raise unreachable, s);
  r_zcard := λ _ _ s, (Raise unreachable, s);
  r_pipeline_execute := λ _ _ s, (Raise unreachable, s)
}.

Definition fresh : world (gmap string entry) := World 0 ∅ [].

(** ** The decorator of [app/core/rate_limiting.py] *)

(** What the code reads of a [fastapi.Request]: [request.client] (absent
    for some transports), its [host], and [request.state.user_id] when a
    middleware has set it. *)
Record request := Request {
  client : option string;
  state_user_id : option Z
}.

(** Truth value of an [Optional[int]]: [None] and [0] are false. *)
Definition truthy (user_id : option Z) : bool :=
  match user_id with
  | Some n => bool_decide (n ≠ 0)
  | None => false
  end.

(** [x or d] on an [Optional[int]]. *)
Definition py_or (x : option Z) (d : Z) : Z :=
  match x with
  | Some n => if bool_decide (n ≠ 0) then n else d
  | None => d
  end.

Definition get_rate_limit_key (req : request) (user_id : option Z)
    : res string :=
  if truthy user_id then
    Ok ("rate_limit:user:" +:+ pretty (py_or user_id 0))
  else
    match client req with
    | Some client_ip => Ok ("rate_limit:ip:" +:+ client_ip)
    | None =>
        Raise (Exn AttributeError
                 "'NoneType' object has no attribute 'host'")
    end.

(** A positional argument of a wrapped endpoint. *)
Inductive arg :=
  | ARequest (r : request)
  | AValue (v : pyval).

(** [for arg in args: if isinstance(arg, Request): request = arg; break].
    A request object is never false in [if not request]: its length is that
    of its ASGI scope, which is not empty. *)
Fixpoint find_request (args : list arg) : option request :=
  match args with
  | [] => None
  | ARequest r :: _ => Some r
  | AValue _ :: args' => find_request args'
  end.

Definition lift {W A} (r : res A) : M W A := λ w, (r, w).

Section Decorator.
Context `{RedisClient R} {K A : Type}.

Definition too_many_requests (limit window remaining now : Z) : exn :=
  HTTPException
    {| status_code := 429;
       detail := [ ("error", VStr "Rate limit exceeded");
                   ("limit", VInt limit);
                   ("window", VInt window);
                   ("remaining", VInt remaining);
                   ("retry_after", VInt window) ];
       headers := [ ("X-RateLimit-Limit", pretty limit);
                    ("X-RateLimit-Remaining", pretty remaining);
                    ("X-RateLimit-Reset", pretty (now + window));
                    ("Retry-After", pretty window) ] |}.

(** [rate_limit(limit, window)(func)] is [wrapper]. *)
Definition rate_limit (limit window : Z)
    (func : list arg → K → M (world R) A)
    : list arg → K → M (world R) A :=
  λ args kwargs,
    match find_request args with
    | None => func args kwargs
    | Some req =>
        let user_id := state_user_id req in
        key ← lift (get_rate_limit_key req user_id);
        is_allowed ← RateLimiter.is_allowed key limit window;
        if negb is_allowed then
          remaining ←
            RateLimiter.get_remaining_requests key limit window;
          now ← time_time;
          raise (too_many_requests limit window remaining now)
        else
          func args kwargs
    end.
End Decorator.

(** ** A fragment of the Python library *)

(** [json], [pickle], [str] and UTF-8 decoding are library code, not code of
    the two modules.  [CacheManager] is written against the interface
    [Codec] below; this module gives the instance used to run examples.  It
    covers the values of [pyval]; text is handled byte by byte, a [str]
    being the bytes of its UTF-8 encoding. *)
Module Py.

Definition bytes_of (s : string) : list N :=
  N_of_ascii <$> String.list_ascii_of_string s.

Definition of_bytes (bs : list N) : string :=
  String.string_of_list_ascii (ascii_of_N <$> bs).

Definition hex_digit (n : N) : ascii :=
  match n with
  | 0 => "0" | 1 => "1" | 2 => "2" | 3 => "3" | 4 => "4" | 5 => "5"
  | 6 => "6" | 7 => "7" | 8 => "8" | 9 => "9" | 10 => "a" | 11 => "b"
  | 12 => "c" | 13 => "d" | 14 => "e" | _ => "f"
  end%N%char.

Definition hex2 (n : N) : string :=
  String (hex_digit (n / 16)) (String (hex_digit (n mod 16)) "").

Definition hex4 (n : N) : string :=
  hex2 (n / 256) +:+ hex2 (n mod 256).

(** *** UTF-8 *)

Definition cont (b : N) : bool := ((128 <=? b) && (b <=? 191))%N.

(** Strict UTF-8, as [bytes.decode('utf-8')] checks it: no overlong
    forms, no surrogates, nothing above U+10FFFF. *)
Fixpoint utf8_valid (bs : list N) : bool :=
  match bs with
  | [] => true
  | b0 :: r =>
      if (b0 <? 128)%N then utf8_valid r
      else if ((194 <=? b0) && (b0 <=? 223))%N then
        match r with
        | b1 :: r' => cont b1 && utf8_valid r'
        | _ => false
        end
      else if ((224 <=? b0) && (b0 <=? 239))%N then
        match r with
        | b1 :: b2 :: r' =>
            cont b1 && cont b2
            && (if (b0 =? 224)%N then (160 <=? b1)%N else true)
            && (if (b0 =? 237)%N then (b1 <=? 159)%N else true)
            && utf8_valid r'
        | _ => false
        end
      else if ((240 <=? b0) && (b0 <=? 244))%N then
        match r with
        | b1 :: b2 :: b3 :: r' =>
            cont b1 && cont b2 && cont b3
            && (if (b0 =? 240)%N then (144 <=? b1)%N else true)
            && (if (b0 =? 244)%N then (b1 <=? 143)%N else true)
            && utf8_valid r'
        | _ => false
        end
      else false
  end.

Definition utf8_decode (b : string) : res string :=
  if utf8_valid (bytes_of b) then Ok b
  else Raise (Exn UnicodeDecodeError
                "'utf-8' codec can't decode bytes: invalid data").

(** The code points of a [str]. *)
Fixpoint code_points (bs : list N) : list N :=
  match bs with
  | [] => []
  | b0 :: r =>
      if (b0 <? 128)%N then b0 :: code_points r
      else if (b0 <? 224)%N then
        match r with
        | b1 :: r' => ((b0 mod 32) * 64 + b1 mod 64)%N :: code_points r'
        | _ => []
        end
      else if (b0 <? 240)%N then
        match r with
        | b1 :: b2 :: r' =>
            ((b0 mod 16) * 4096 + (b1 mod 64) * 64 + b2 mod 64)%N
            :: code_points r'
        | _ => []
        end
      else
        match r with
        | b1 :: b2 :: b3 :: r' =>
            ((b0 mod 8) * 262144 + (b1 mod 64) * 4096
             + (b2 mod 64) * 64 + b3 mod 64)%N
            :: code_points r'
        | _ => []
        end
  end.

(** The UTF-8 bytes of one code point; a lone surrogate gets the
    three-byte form. *)
Definition utf8_of_code_point (c : N) : list N :=
  if (c <? 128)%N then [c]
  else if (c <? 2048)%N then [192 + c / 64; 128 + c mod 64]%N
  else if (c <? 65536)%N then
    [224 + c / 4096; 128 + (c / 64) mod 64; 128 + c mod 64]%N
  else
    [240 + c / 262144; 128 + (c / 4096) mod 64;
     128 + (c / 64) mod 64; 128 + c mod 64]%N.

(** *** [str] and [repr] *)

Definition printable (b : N) : bool := ((32 <=? b) && (b <? 127))%N.

(** The body of [repr] of a [bytes] or [str] object between quotes [q];
    for [str], bytes from 128 up belong to printable characters and stay
    as they are. *)
Definition repr_byte (is_bytes : bool) (q : N) (b : N) : string :=
  if (b =? 92)%N then "\\"
  else if (b =? q)%N then String "\" (String (ascii_of_N q) "")
  else if (b =? 9)%N then "\t"
  else if (b =? 10)%N then "\n"
  else if (b =? 13)%N then "\r"
  else if printable b || (negb is_bytes && (128 <=? b)%N)
    then String (ascii_of_N b) ""
  else "\x" +:+ hex2 b.

(** Single quotes, unless the text has a single quote and no double
    quote. *)
Definition quote_of (bs : list N) : N :=
  if bool_decide (39%N ∈ bs) && negb (bool_decide (34%N ∈ bs))
  then 34%N else 39%N.

Definition quoted (is_bytes : bool) (s : string) : string :=
  let bs := bytes_of s in
  let q := quote_of bs in
  String (ascii_of_N q)
    (foldr (λ b acc, repr_byte is_bytes q b +:+ acc)
           (String (ascii_of_N q) "") bs).

Definition join (sep : string) (l : list string) : string :=
  match l with
  | [] => ""
  | x :: r => foldl (λ acc y, acc +:+ sep +:+ y) x r
  end.

Fixpoint repr (v : pyval) : string :=
  match v with
  | VNone => "None"
  | VBool true => "True"
  | VBool false => "False"
  | VInt n => pretty n
  | VStr s => quoted false s
  | VBytes b => "b" +:+ quoted true b
  | VList l => "[" +:+ join ", " (map repr l) +:+ "]"
  | VTuple [x] => "(" +:+ repr x +:+ ",)"
  | VTuple l => "(" +:+ join ", " (map repr l) +:+ ")"
  | VDict d =>
      "{" +:+ join ", "
                (map (λ kv, repr kv.1 +:+ ": " +:+ repr kv.2) d) +:+ "}"
  end.

(** [str(v)]: the text itself for a [str], [repr(v)] otherwise. *)
Definition str (v : pyval) : string :=
  match v with
  | VStr s => s
  | _ => repr v
  end.

(** *** [json.dumps(value, default=str)] *)

Definition dquote : string := String (ascii_of_N 34) EmptyString.

(** One code point inside a JSON string, with [ensure_ascii] on. *)
Definition json_escape (c : N) : string :=
  if (c =? 34)%N then "\" +:+ dquote
  else if (c =? 92)%N then "\\"
  else if (c =? 10)%N then "\n"
  else if (c =? 13)%N then "\r"
  else if (c =? 9)%N then "\t"
  else if (c =? 8)%N then "\b"
  else if (c =? 12)%N then "\f"
  else if printable c then String (ascii_of_N c) EmptyString
  else if (c <? 65536)%N then "\u" +:+ hex4 c
  else
    let v := (c - 65536)%N in
    "\u" +:+ hex4 (55296 + v / 1024) +:+ "\u" +:+ hex4 (56320 + v mod 1024).

Definition json_string (s : string) : string :=
  dquote
  +:+ foldr (λ c acc, json_escape c +:+ acc) dquote
            (code_points (bytes_of s)).

Fixpoint sequence {A} (l : list (res A)) : res (list A) :=
  match l with
  | [] => Ok []
  | Raise e :: _ => Raise e
  | Ok x :: r =>
      match sequence r with
      | Ok xs => Ok (x :: xs)
      | Raise e => Raise e
      end
  end.

(** A dict key in JSON: [str], [int], [bool] and [None] keys become
    text, any other key is a [TypeError]; [default] is not asked. *)
Definition json_key (k : pyval) : res string :=
  match k with
  | VStr s => Ok s
  | VInt n => Ok (pretty n)
  | VBool true => Ok "true"
  | VBool false => Ok "false"
  | VNone => Ok "null"
  | _ => Raise (Exn TypeError
                  "keys must be str, int, float, bool or None")
  end.

(** What the encoder cannot write itself, here [bytes], goes through
    [default=str] and is written as the JSON string of its [str]. *)
Fixpoint json_dumps (v : pyval) : res string :=
  match v with
  | VNone => Ok "null"
  | VBool true => Ok "true"
  | VBool false => Ok "false"
  | VInt n => Ok (pretty n)
  | VStr s => Ok (json_string s)
  | VBytes _ => Ok (json_string (str v))
  | VList l | VTuple l =>
      match sequence (map json_dumps l) with
      | Ok items => Ok ("[" +:+ join ", " items +:+ "]")
      | Raise e => Raise e
      end
  | VDict d =>
      match sequence
              (map (λ kv,
                      match json_key kv.1, json_dumps kv.2 with
                      | Ok k, Ok x => Ok (json_string k +:+ ": " +:+ x)
                      | Raise e, _ => Raise e
                      | _, Raise e => Raise e
                      end) d) with
      | Ok items => Ok ("{" +:+ join ", " items +:+ "}")
      | Raise e => Raise e
      end
  end.

(** *** [json.loads] *)

Definition jerr {A} (msg : string) : res A :=
  Raise (Exn JSONDecodeError msg).

Definition is_ws (b : N) : bool :=
  ((b =? 32) || (b =? 9) || (b =? 10) || (b =? 13))%N.

Fixpoint skip_ws (bs : list N) : list N :=
  match bs with
  | b :: r => if is_ws b then skip_ws r else bs
  | [] => []
  end.

Definition is_digit (b : N) : bool := ((48 <=? b) && (b <=? 57))%N.

Definition hex_value (b : N) : option N :=
  if is_digit b then Some (b - 48)%N
  else if ((97 <=? b) && (b <=? 102))%N then Some (b - 87)%N
  else if ((65 <=? b) && (b <=? 70))%N then Some (b - 55)%N
  else None.

(** A piece of a string literal: a byte written as it is, or the code
    point of a [\uXXXX] escape. *)
Inductive piece := Raw (b : N) | Escaped (c : N).

Definition simple_escape (e : N) : option N :=
  if (e =? 34)%N then Some 34%N
  else if (e =? 92)%N then Some 92%N
  else if (e =? 47)%N then Some 47%N
  else if (e =? 98)%N then Some 8%N
  else if (e =? 102)%N then Some 12%N
  else if (e =? 110)%N then Some 10%N
  else if (e =? 114)%N then Some 13%N
  else if (e =? 116)%N then Some 9%N
  else None.

(** The body of a string literal, after its opening quote: the pieces up
    to the closing quote, and what follows it. *)
Fixpoint string_pieces (bs : list N) : res (list piece * list N) :=
  match bs with
  | [] => jerr "Unterminated string"
  | b :: r =>
      if (b =? 34)%N then Ok ([], r)
      else if (b =? 92)%N then
        match r with
        | [] => jerr "Unterminated string"
        | e :: r1 =>
            if (e =? 117)%N then
              match r1 with
              | h1 :: h2 :: h3 :: h4 :: r2 =>
                  match hex_value h1, hex_value h2,
                        hex_value h3, hex_value h4 with
                  | Some a, Some b', Some c, Some d =>
                      match string_pieces r2 with
                      | Ok (ps, rest) =>
                          Ok (Escaped (a * 4096 + b' * 256 + c * 16 + d)%N
                              :: ps, rest)
                      | Raise x => Raise x
                      end
                  | _, _, _, _ => jerr "Invalid \uXXXX escape"
                  end
              | _ => jerr "Invalid \uXXXX escape"
              end
            else
              match simple_escape e with
              | Some c =>
                  match string_pieces r1 with
                  | Ok (ps, rest) => Ok (Raw c :: ps, rest)
                  | Raise x => Raise x
                  end
              | None => jerr "Invalid \escape"
              end
        end
      else if (b <? 32)%N then jerr "Invalid control character"
      else
        match string_pieces r with
        | Ok (ps, rest) => Ok (Raw b :: ps, rest)
        | Raise x => Raise x
        end
  end.

(** The bytes of the pieces; a high surrogate escape followed by a low
    one is one code point. *)
Fixpoint pieces_bytes (ps : list piece) : list N :=
  match ps with
  | [] => []
  | Raw b :: r => b :: pieces_bytes r
  | Escaped h :: r =>
      match r with
      | Escaped l :: r' =>
          if ((55296 <=? h) && (h <=? 56319)
              && (56320 <=? l) && (l <=? 57343))%N
          then utf8_of_code_point
                 (65536 + (h - 55296) * 1024 + (l - 56320))%N
               ++ pieces_bytes r'
          else utf8_of_code_point h ++ pieces_bytes r
      | _ => utf8_of_code_point h ++ pieces_bytes r
      end
  end.

Definition parse_string (bs : list N) : res (string * list N) :=
  match string_pieces bs with
  | Ok (ps, rest) => Ok (of_bytes (pieces_bytes ps), rest)
  | Raise e => Raise e
  end.

Fixpoint digits (bs : list N) (acc : Z) : Z * list N :=
  match bs with
  | b :: r => if is_digit b then digits r (10 * acc + Z.of_N (b - 48))
              else (acc, bs)
  | [] => (acc, [])
  end.

(** What follows the integer part decides: a fraction or an exponent
    makes the literal a float, which [pyval] does not have. *)
Definition float_follows (bs : list N) : bool :=
  match bs with
  | b :: d :: _ =>
      ((b =? 46)%N && is_digit d)
      || (((b =? 101) || (b =? 69))%N
          && (is_digit d || (d =? 43)%N || (d =? 45)%N))
  | _ => false
  end.

Definition not_modelled {A} : res A :=
  Raise (Exn NotModelled "float literal").

Definition parse_number (negative : bool) (bs : list N)
    : res (pyval * list N) :=
  match bs with
  | b :: r =>
      if (b =? 48)%N then
        if float_follows r then not_modelled else Ok (VInt 0, r)
      else if is_digit b then
        let '(n, rest) := digits bs 0 in
        if float_follows rest then not_modelled
        else Ok (VInt (if negative then - n else n), rest)
      else jerr "Expecting value"
  | [] => jerr "Expecting value"
  end.

Fixpoint starts_with (p bs : list N) : option (list N) :=
  match p, bs with
  | [], _ => Some bs
  | x :: p', b :: r => if (x =? b)%N then starts_with p' r else None
  | _ :: _, [] => None
  end.

(** [d[k] = v] on an insertion-ordered dict. *)
Fixpoint dict_set (k : string) (v : pyval) (d : list (pyval * pyval))
    : list (pyval * pyval) :=
  match d with
  | [] => [(VStr k, v)]
  | (VStr k', v') :: r =>
      if bool_decide (k = k') then (VStr k', v) :: r
      else (VStr k', v') :: dict_set k v r
  | kv :: r => kv :: dict_set k v r
  end.

Fixpoint parse_value (fuel : nat) (bs : list N) : res (pyval * list N) :=
  match fuel with
  | O => Raise (Exn RecursionError "maximum recursion depth exceeded")
  | S fuel' =>
      match bs with
      | [] => jerr "Expecting value"
      | b :: r =>
          if (b =? 34)%N then
            match parse_string r with
            | Ok (s, rest) => Ok (VStr s, rest)
            | Raise e => Raise e
            end
          else if (b =? 123)%N then
            match skip_ws r with
            | c :: r' =>
                if (c =? 125)%N then Ok (VDict [], r')
                else parse_members fuel' (c :: r') []
            | [] => jerr "Expecting property name"
            end
          else if (b =? 91)%N then
            match skip_ws r with
            | c :: r' =>
                if (c =? 93)%N then Ok (VList [], r')
                else parse_items fuel' (c :: r') []
            | [] => jerr "Expecting value"
            end
          else if (b =? 45)%N then
            match starts_with (bytes_of "Infinity") r with
            | Some _ => not_modelled
            | None => parse_number true r
            end
          else
            match starts_with (bytes_of "null") bs,
                  starts_with (bytes_of "true") bs,
                  starts_with (bytes_of "false") bs with
            | Some rest, _, _ => Ok (VNone, rest)
            | _, Some rest, _ => Ok (VBool true, rest)
            | _, _, Some rest => Ok (VBool false, rest)
            | _, _, _ =>
                match starts_with (bytes_of "NaN") bs,
                      starts_with (bytes_of "Infinity") bs with
                | None, None => parse_number false bs
                | _, _ => not_modelled
                end
            end
      end
  end
(** The items of an array, [acc] being those read so far, reversed. *)
with parse_items (fuel : nat) (bs : list N) (acc : list pyval)
    : res (pyval * list N) :=
  match fuel with
  | O => Raise (Exn RecursionError "maximum recursion depth exceeded")
  | S fuel' =>
      match parse_value fuel' bs with
      | Raise e => Raise e
      | Ok (v, rest) =>
          match skip_ws rest with
          | c :: r =>
              if (c =? 93)%N then Ok (VList (rev (v :: acc)), r)
              else if (c =? 44)%N then
                parse_items fuel' (skip_ws r) (v :: acc)
              else jerr "Expecting ',' delimiter"
          | [] => jerr "Expecting ',' delimiter"
          end
      end
  end
(** The members of an object, [acc] being the dict built so far. *)
with parse_members (fuel : nat) (bs : list N) (acc : list (pyval * pyval))
    : res (pyval * list N) :=
  match fuel with
  | O => Raise (Exn RecursionError "maximum recursion depth exceeded")
  | S fuel' =>
      match bs with
      | q :: r0 =>
          if negb (q =? 34)%N then jerr "Expecting property name"
          else
            match parse_string r0 with
            | Raise e => Raise e
            | Ok (k, r1) =>
                match skip_ws r1 with
                | c :: r2 =>
                    if negb (c =? 58)%N then jerr "Expecting ':' delimiter"
                    else
                      match parse_value fuel' (skip_ws r2) with
                      | Raise e => Raise e
                      | Ok (v, r3) =>
                          let acc' := dict_set k v acc in
                          match skip_ws r3 with
                          | e :: r4 =>
                              if (e =? 125)%N then Ok (VDict acc', r4)
                              else if (e =? 44)%N then
                                parse_members fuel' (skip_ws r4) acc'
                              else jerr "Expecting ',' delimiter"
                          | [] => jerr "Expecting ',' delimiter"
                          end
                      end
                | [] => jerr "Expecting ':' delimiter"
                end
            end
      | [] => jerr "Expecting property name"
      end
  end.

Definition json_loads (s : string) : res pyval :=
  let bs := bytes_of s in
  match parse_value (2 * length bs + 2) (skip_ws bs) with
  | Raise e => Raise e
  | Ok (v, rest) =>
      match skip_ws rest with
      | [] => Ok v
      | _ => jerr "Extra data"
      end
  end.

(** *** [pickle] *)

(** Protocol 4 streams, written without frames and without memo entries
    (what [pickletools.optimize] leaves when no object occurs twice), and
    the stack machine that reads them back.  Opcodes the writer never
    emits are outside the model. *)

Local Open Scope list_scope.

Fixpoint le_bytes (n : nat) (v : N) : list N :=
  match n with
  | O => []
  | S n' => (v mod 256)%N :: le_bytes n' (v / 256)%N
  end.

Fixpoint le_value (bs : list N) : N :=
  match bs with
  | [] => 0%N
  | b :: r => (b + 256 * le_value r)%N
  end.

(** The number of bytes of the shortest two's complement form. *)
Definition long_size (n : Z) : nat :=
  let m := if n <? 0 then - n - 1 else n in
  if m =? 0 then (if n =? 0 then 0%nat else 1%nat)
  else Z.to_nat ((Z.log2 m + 9) / 8).

Definition pickle_int (n : Z) : list N :=
  if (0 <=? n) && (n <? 256) then [75%N; Z.to_N n]
  else if (0 <=? n) && (n <? 65536) then 77%N :: le_bytes 2 (Z.to_N n)
  else if (- 2147483648 <=? n) && (n <? 2147483648) then
    74%N :: le_bytes 4 (Z.to_N (n mod 4294967296))
  else
    let k := long_size n in
    138%N :: N.of_nat k :: le_bytes k (Z.to_N (n mod 256 ^ Z.of_nat k)).

Definition sized (short long : N) (bs : list N) : list N :=
  if (length bs <? 256)%nat then short :: N.of_nat (length bs) :: bs
  else long :: le_bytes 4 (N.of_nat (length bs)) ++ bs.

Fixpoint pickle_save (v : pyval) : list N :=
  match v with
  | VNone => [78%N]
  | VBool true => [136%N]
  | VBool false => [137%N]
  | VInt n => pickle_int n
  | VStr s => sized 140 88 (bytes_of s)
  | VBytes b => sized 67 66 (bytes_of b)
  | VList l =>
      93%N ::
      match l with
      | [] => []
      | [x] => pickle_save x ++ [97%N]
      | _ => 40%N :: concat (map pickle_save l) ++ [101%N]
      end
  | VTuple l =>
      match l with
      | [] => [41%N]
      | [x] => pickle_save x ++ [133%N]
      | [x; y] => pickle_save x ++ pickle_save y ++ [134%N]
      | [x; y; z] =>
          pickle_save x ++ pickle_save y ++ pickle_save z ++ [135%N]
      | _ => 40%N :: concat (map pickle_save l) ++ [116%N]
      end
  | VDict d =>
      125%N ::
      match d with
      | [] => []
      | [kv] => pickle_save kv.1 ++ pickle_save kv.2 ++ [115%N]
      | _ =>
          40%N :: concat (map (λ kv, pickle_save kv.1 ++ pickle_save kv.2) d)
          ++ [117%N]
      end
  end.

Definition pickle_dumps (v : pyval) : res string :=
  Ok (of_bytes ([128; 4]%N ++ pickle_save v ++ [46%N])).

Inductive slot := Val (v : pyval) | Mark.

Definition perr {A} (msg : string) : res A :=
  Raise (Exn UnpicklingError msg).

(** The values above the topmost mark, oldest first, and the stack
    below the mark. *)
Fixpoint pop_mark (st : list slot) (acc : list pyval)
    : option (list pyval * list slot) :=
  match st with
  | [] => None
  | Mark :: r => Some (acc, r)
  | Val v :: r => pop_mark r (v :: acc)
  end.

Fixpoint pairs (l : list pyval) : option (list (pyval * pyval)) :=
  match l with
  | [] => Some []
  | k :: v :: r =>
      match pairs r with
      | Some ps => Some ((k, v) :: ps)
      | None => None
      end
  | [_] => None
  end.

Definition signed (bits : Z) (u : N) : Z :=
  if Z.of_N u <? 2 ^ (bits - 1) then Z.of_N u else Z.of_N u - 2 ^ bits.

Fixpoint pickle_run (fuel : nat) (bs : list N) (st : list slot)
    : res pyval :=
  match fuel with
  | O => perr "pickle data was truncated"
  | S fuel' =>
      let next := pickle_run fuel' in
      let counted (n : nat) (r : list N)
                  (k : list N → list N → res pyval) : res pyval :=
        if (length r <? n)%nat then perr "pickle data was truncated"
        else k (take n r) (drop n r) in
      match bs with
      | [] => perr "pickle data was truncated"
      | op :: r =>
          match Z.of_N op, st with
          | 128, _ => counted 1%nat r (λ _ r', next r' st)
          | 46, Val v :: _ => Ok v
          | 78, _ => next r (Val VNone :: st)
          | 136, _ => next r (Val (VBool true) :: st)
          | 137, _ => next r (Val (VBool false) :: st)
          | 75, _ =>
              counted 1%nat r (λ a r', next r' (Val (VInt (Z.of_N (le_value a))) :: st))
          | 77, _ =>
              counted 2%nat r (λ a r', next r' (Val (VInt (Z.of_N (le_value a))) :: st))
          | 74, _ =>
              counted 4%nat r (λ a r', next r' (Val (VInt (signed 32 (le_value a))) :: st))
          | 138, _ =>
              counted 1%nat r (λ a r',
                let k := N.to_nat (le_value a) in
                counted k r' (λ b r'',
                  next r'' (Val (VInt (if (k =? 0)%nat then 0
                                       else signed (8 * Z.of_nat k)
                                              (le_value b))) :: st)))
          | 140, _ =>
              counted 1%nat r (λ a r',
                counted (N.to_nat (le_value a)) r' (λ b r'',
                  next r'' (Val (VStr (of_bytes b)) :: st)))
          | 88, _ =>
              counted 4%nat r (λ a r',
                counted (N.to_nat (le_value a)) r' (λ b r'',
                  next r'' (Val (VStr (of_bytes b)) :: st)))
          | 67, _ =>
              counted 1%nat r (λ a r',
                counted (N.to_nat (le_value a)) r' (λ b r'',
                  next r'' (Val (VBytes (of_bytes b)) :: st)))
          | 66, _ =>
              counted 4%nat r (λ a r',
                counted (N.to_nat (le_value a)) r' (λ b r'',
                  next r'' (Val (VBytes (of_bytes b)) :: st)))
          | 40, _ => next r (Mark :: st)
          | 93, _ => next r (Val (VList []) :: st)
          | 97, Val x :: Val (VList l) :: st' =>
              next r (Val (VList (l ++ [x])) :: st')
          | 101, _ =>
              match pop_mark st [] with
              | Some (xs, Val (VList l) :: st') =>
                  next r (Val (VList (l ++ xs)) :: st')
              | _ => perr "unpickling stack underflow"
              end
          | 41, _ => next r (Val (VTuple []) :: st)
          | 133, Val x :: st' => next r (Val (VTuple [x]) :: st')
          | 134, Val y :: Val x :: st' => next r (Val (VTuple [x; y]) :: st')
          | 135, Val z :: Val y :: Val x :: st' =>
              next r (Val (VTuple [x; y; z]) :: st')
          | 116, _ =>
              match pop_mark st [] with
              | Some (xs, st') => next r (Val (VTuple xs) :: st')
              | None => perr "unpickling stack underflow"
              end
          | 125, _ => next r (Val (VDict []) :: st)
          | 115, Val v :: Val k :: Val (VDict d) :: st' =>
              next r (Val (VDict (d ++ [(k, v)])) :: st')
          | 117, _ =>
              match pop_mark st [] with
              | Some (xs, Val (VDict d) :: st') =>
                  match pairs xs with
                  | Some ps => next r (Val (VDict (d ++ ps)) :: st')
                  | None => perr "odd number of items for SETITEMS"
                  end
              | _ => perr "unpickling stack underflow"
              end
          | _, _ => perr "unpickling stack underflow or unknown opcode"
          end
      end
  end.

Definition pickle_loads (b : string) : res pyval :=
  let bs := bytes_of b in pickle_run (S (length bs)) bs [].

Definition utf8_encode (s : string) : res string :=
  if utf8_valid (bytes_of s) then Ok s
  else Raise (Exn UnicodeEncodeError
                "'utf-8' codec can't encode: surrogates not allowed").
End Py.

(** ** [app/core/cache.py] *)

(** The library calls of [CacheManager]: [json.dumps(value, default=str)],
    [json.loads], [pickle.dumps], [pickle.loads], [str(value)],
    [bytes.decode('utf-8')] and [str.encode('utf-8')]. *)
Class Codec := {
  json_dumps : pyval → res string;
  json_loads : string → res pyval;
  pickle_dumps : pyval → res string;
  pickle_loads : string → res pyval;
  py_str : pyval → res string;
  utf8_decode : string → res string;
  utf8_encode : string → res string
}.

Record cache_manager := CacheManagerOf { default_ttl : Z }.

Module CacheManager.
Section CacheManager.
Context `{RedisClient R} `{Codec}.

Definition get (self : cache_manager) (key : string) (deserialize : bool)
    : M (world R) pyval :=
  try_except
    (value ← call (λ now, r_get now key);
     match value with
     | None => mret VNone
     | Some value =>
         if deserialize then
           try_except_on [JSONDecodeError; UnicodeDecodeError]
             (text ← lift (utf8_decode value);
              lift (json_loads text))
             (lift (pickle_loads value))
         else
           text ← lift (utf8_decode value);
           mret (VStr text)
     end)
    (λ e, print ("Cache get error: " +:+ str_exn e);;
          mret VNone).

Definition set (self : cache_manager) (key : string) (value : pyval)
    (ttl : option Z) (serialize : bool) : M (world R) bool :=
  try_except
    (serialized_value ←
       (if serialize then
          try_except_on [TypeError; ValueError]
            (text ← lift (json_dumps value);
             mret (PText text))
            (blob ← lift (pickle_dumps value);
             mret (PBytes blob))
        else
          text ← lift (py_str value);
          blob ← lift (utf8_encode text);
          mret (PBytes blob));
     let ttl := py_or ttl (default_ttl self) in
     call (λ now, r_setex now key ttl serialized_value))
    (λ e, print ("Cache set error: " +:+ str_exn e);;
          mret false).

Definition delete (self : cache_manager) (key : string)
    : M (world R) bool :=
  try_except
    (n ← call (λ now, r_delete now [key]);
     mret (bool_decide (n ≠ 0)))
    (λ e, print ("Cache delete error: " +:+ str_exn e);;
          mret false).

Definition exists_ (self : cache_manager) (key : string)
    : M (world R) bool :=
  try_except
    (n ← call (λ now, r_exists now key);
     mret (bool_decide (n ≠ 0)))
    (λ e, print ("Cache exists error: " +:+ str_exn e);;
          mret false).

Definition clear_pattern (self : cache_manager) (pattern : string)
    : M (world R) Z :=
  try_except
    (keys ← call (λ now, r_keys now pattern);
     match keys with
     | _ :: _ => call (λ now, r_delete now keys)
     | [] => mret 0
     end)
    (λ e, print ("Cache clear pattern error: " +:+ str_exn e);;
          mret 0).

Definition get_or_set (self : cache_manager) (key : string)
    (factory_func : M (world R) pyval) (ttl : option Z)
    : M (world R) pyval :=
  value ← get self key true;
  match value with
  | VNone =>
      value ← factory_func;
      _ ← set self key value ttl true;
      mret value
  | _ => mret value
  end.
End CacheManager.
End CacheManager.

(** [cache = CacheManager()] *)
Definition cache : cache_manager := CacheManagerOf 3600.

Global Instance py_codec : Codec := {
  json_dumps := Py.json_dumps;
  json_loads := Py.json_loads;
  pickle_dumps := Py.pickle_dumps;
  pickle_loads := Py.pickle_loads;
  py_str := λ v, Ok (Py.str v);
  utf8_decode := Py.utf8_decode;
  utf8_encode := Py.utf8_encode
}.

(** ** The decorator of [app/core/cache.py] *)

Section CacheResult.
Context `{RedisClient R} `{Codec}.

(** Python's [hash] of a [str]: salted anew in each process, so nothing is
    known of it but that it is a function. *)
Variable hash : string → Z.

(** [cache_result(ttl, key_prefix)(func)] is [wrapper]; [func_name] is
    [func.__name__], [args] the positional arguments as a tuple, [kwargs]
    the keyword arguments as a dict.  The decorator works on the
    instance [cache] of the module. *)
Definition cache_result (ttl : Z) (key_prefix func_name : string)
    (func : list pyval → list (pyval * pyval) → M (world R) pyval)
    : list pyval → list (pyval * pyval) → M (world R) pyval :=
  λ args kwargs,
    str_args ← lift (py_str (VTuple args));
    str_kwargs ← lift (py_str (VDict kwargs));
    let cache_key :=
      key_prefix +:+ ":" +:+ func_name +:+ ":"
      +:+ pretty (hash (str_args +:+ str_kwargs)) in
    result ← CacheManager.get cache cache_key true;
    match result with
    | VNone =>
        result ← func args kwargs;
        _ ← CacheManager.set cache cache_key result (Some ttl) true;
        mret result
    | _ => mret result
    end.
End CacheResult.

(** ** Vocabulary of the statements *)

(** The event log the server shows for [key] at time [now]: empty when the
    key is absent or past its deadline, undefined when the key holds a byte
    string. *)
Definition zset_view (now : Z) (key : string) (db : gmap string entry)
    : option (gmap string Z) :=
  match MemRedis.fetch now key db with
  | None => Some ∅
  | Some (Entry (RZSet z) _) => Some z
  | Some (Entry (RString _) _) => None
  end.

(** What ZREMRANGEBYSCORE key 0 (now - window) leaves of a log. *)
Definition evict (now window : Z) (z : gmap string Z) : gmap string Z :=
  filter (MemRedis.outside 0 (now - window)) z.

(** The log that holds one member [str(s)], scored [s], per second of [X]. *)
Definition log_of (X : gset Z) : gmap string Z :=
  set_to_map (λ s, (pretty s, s)) X.

(** The seconds of [X] that lie in the window (now - window, now]. *)
Definition in_window (now window : Z) (X : gset Z) : gset Z :=
  filter (λ s, now - window < s) X.

(** A run of [is_allowed] calls on one key, one per clock value of [ts],
    and the world it leaves. *)
Definition calls `{RedisClient R} (key : string) (limit window : Z)
    (ts : list Z) (w : world R) : world R :=
  foldl (λ w t, (RateLimiter.is_allowed key limit window (at_time t w)).2)
        w ts.

(** The log of [key] is the log of the seconds [X], none later than [tl]:
    whatever the server shows at a time [t] from [tl] on, what is left of it
    after eviction is one member per second of [X] inside the window. *)
Definition window_inv (key : string) (window : Z) (X : gset Z) (tl : Z)
    (db : gmap string entry) : Prop :=
  (∀ s, s ∈ X → 0 ≤ s ≤ tl) ∧
  ∀ t, tl ≤ t →
    ∃ z, zset_view t key db = Some z
         ∧ evict t window z = log_of (in_window t window X).

(** Every member of a log is the decimal text of its own score. *)
Definition one_per_second (z : gmap string Z) : Prop :=
  ∀ m s, z !! m = Some s → m = pretty s.

(** The key a sorted-set command works on. *)
Definition zkey (c : zcmd) : string :=
  match c with
  | ZRemRangeByScore key _ _ | ZCard key | ZAdd key _ _ | Expire key _ => key
  end.

(** Two values for the examples: the two bytes 0x00 0xff, and a dict with a
    tuple for key, [{(1, 2): 3}]. *)
Definition blob : pyval :=
  VBytes (String (ascii_of_N 0) (String (ascii_of_N 255) EmptyString)).

Definition tuple_keyed : pyval := VDict [(VTuple [VInt 1; VInt 2], VInt 3)].

(** The entries that [clear_pattern] is to remove at time [now]: the key
    matches the pattern and the entry is still alive. *)
Definition matched (now : Z) (pattern : string) (p : string * entry)
    : Prop :=
  MemRedis.key_matches pattern p.1 = true
  ∧ MemRedis.alive now p.2 = true.

Global Instance matched_dec now pattern p : Decision (matched now pattern p).
Proof. unfold matched. apply _. Defined.


(** A store for the examples: three cache entries, set at second 1000 with
    the default time to live. *)
Definition three_keys : gmap string entry :=
  redis
    (CacheManager.set cache "other:1" (VInt 3) None true
       (CacheManager.set cache "ns:2" (VInt 2) None true
          (CacheManager.set cache "ns:1" (VInt 1) None true
             (World 1000 (∅ : gmap string entry) [])).2).2).2.

(** * Properties *)

(** ** The in-memory server *)

Section MemRedisFacts.
Implicit Types (db : gmap string entry) (z : gmap string Z).

Lemma fetch_insert_eq now key e db :
  MemRedis.fetch now key (<[key := e]> db)
  = if MemRedis.alive now e then Some e else None.
Proof. unfold MemRedis.fetch. by rewrite lookup_insert_eq. Qed.

Lemma fetch_insert_ne now key key' e db :
  key ≠ key' →
  MemRedis.fetch now key' (<[key := e]> db) = MemRedis.fetch now key' db.
Proof. intros. unfold MemRedis.fetch. by rewrite lookup_insert_ne. Qed.

Lemma fetch_delete_eq now key db :
  MemRedis.fetch now key (delete key db) = None.
Proof. unfold MemRedis.fetch. by rewrite lookup_delete_eq. Qed.

Lemma fetch_delete_ne now key key' db :
  key ≠ key' →
  MemRedis.fetch now key' (delete key db) = MemRedis.fetch now key' db.
Proof. intros. unfold MemRedis.fetch. by rewrite lookup_delete_ne. Qed.

Lemma fetch_alive now key db e :
  MemRedis.fetch now key db = Some e → MemRedis.alive now e = true.
Proof.
  unfold MemRedis.fetch. destruct (db !! key) as [e'|]; [|done].
  destruct (MemRedis.alive now e') eqn:Ha; [|done]. by intros [= <-].
Qed.

Lemma alive_refreshed now window v :
  0 < window → MemRedis.alive now (Entry v (Some (now + window))) = true.
Proof. intros. unfold MemRedis.alive; simpl. apply bool_decide_eq_true. lia. Qed.
End MemRedisFacts.

(** One call of [is_allowed] against the in-memory server: the decision is
    taken on the evicted log, and the call leaves that log with the member
    of the current second added and the deadline one window ahead. *)
Lemma is_allowed_step key limit window now db out z :
  0 < window →
  zset_view now key db = Some z →
  RateLimiter.is_allowed key limit window (World now db out)
  = (Ok (bool_decide (Z.of_nat (size (evict now window z)) < limit)),
     World now
       (<[key := Entry (RZSet (<[pretty now := now]> (evict now window z)))
                       (Some (now + window))]> db)
       out).
Proof.
  intros HW Hview. unfold zset_view in Hview.
  unfold RateLimiter.is_allowed, try_except, mbind, M_bind, bind, time_time,
    call, mret, M_ret, ret. simpl.
  unfold MemRedis.pipeline_execute. simpl.
  destruct (MemRedis.fetch now key db) as [[[b|z0] d]|] eqn:Hf;
    simplify_eq/=.
  - fold (evict now window z).
    pose proof (fetch_alive _ _ _ _ Hf) as Ha.
    unfold MemRedis.alive in Ha; simpl in Ha.
    destruct (decide (size (evict now window z) = 0%nat)) as [Hz|Hz].
    + repeat (rewrite ?fetch_delete_eq, ?fetch_insert_eq;
              unfold MemRedis.alive; simpl).
      case_decide; [lia|]. simpl.
      apply map_size_empty_inv in Hz as Hz'. rewrite Hz'.
      rewrite map_size_empty. simpl.
      rewrite insert_insert_eq, insert_delete_eq.
      by rewrite insert_empty.
    + repeat (rewrite ?fetch_insert_eq;
              unfold MemRedis.alive; simpl; rewrite ?Ha; simpl).
      case_decide; [lia|]. simpl.
      by rewrite !insert_insert_eq.
  - repeat (rewrite ?Hf, ?fetch_insert_eq; unfold MemRedis.alive; simpl).
    case_decide; [lia|]. unfold evict. rewrite map_filter_empty.
    rewrite map_size_empty. simpl. rewrite insert_insert_eq.
    by rewrite insert_empty.
Qed.

(** ** Logs with one member per second *)

Section LogOf.
Implicit Types (X : gset Z) (z : gmap string Z).

Lemma lookup_log_of X m s :
  log_of X !! m = Some s ↔ m = pretty s ∧ s ∈ X.
Proof.
  unfold log_of. rewrite lookup_set_to_map.
  - naive_solver.
  - intros y y' _ _ Heq; simpl in Heq. by apply (inj pretty).
Qed.

Lemma log_of_empty : log_of ∅ = ∅.
Proof.
  apply map_eq; intros m. apply option_eq; intros s.
  rewrite lookup_log_of, lookup_empty. set_solver.
Qed.

Lemma log_of_insert X t : <[pretty t := t]> (log_of X) = log_of ({[t]} ∪ X).
Proof.
  apply map_eq; intros m. apply option_eq; intros s.
  rewrite lookup_log_of, lookup_insert_Some, lookup_log_of.
  split.
  - intros [[<- <-]|[? [-> ?]]]; set_solver.
  - intros [-> [->%elem_of_singleton|?]%elem_of_union]; [by left|].
    destruct (decide (t = s)) as [->|]; [by left|right].
    split; [|done]. by intros ?%(inj pretty).
Qed.

Lemma evict_log_of now window X :
  evict now window (log_of X)
  = log_of (filter (λ s, ¬ (0 ≤ s ≤ now - window)) X).
Proof.
  apply map_eq; intros m. apply option_eq; intros s. unfold evict.
  rewrite map_lookup_filter_Some, !lookup_log_of, elem_of_filter.
  unfold MemRedis.outside; simpl. naive_solver.
Qed.

Lemma size_log_of X : size (log_of X) = size X.
Proof.
  induction X as [|t X Hfresh IH] using set_ind_L.
  - by rewrite log_of_empty, map_size_empty, size_empty.
  - rewrite <-log_of_insert, map_size_insert_None, IH.
    + rewrite size_union, size_singleton by set_solver. done.
    + destruct (log_of X !! pretty t) as [s|] eqn:Hs; [|done].
      apply lookup_log_of in Hs as [->%(inj pretty) ?]. done.
Qed.

Lemma evict_empty now window : evict now window ∅ = ∅.
Proof. unfold evict. apply map_filter_empty. Qed.
End LogOf.

(** ** The sliding window on the in-memory server *)

Section Window.
Implicit Types (db : gmap string entry) (X : gset Z) (z : gmap string Z).

Lemma zset_view_insert_zset t key z d db :
  zset_view t key (<[key := Entry (RZSet z) (Some d)]> db)
  = Some (if bool_decide (t < d) then z else ∅).
Proof.
  unfold zset_view. rewrite fetch_insert_eq. unfold MemRedis.alive; simpl.
  by case_bool_decide.
Qed.

Lemma window_inv_fresh key window tl db :
  db !! key = None → window_inv key window ∅ tl db.
Proof.
  intros Hk. split; [set_solver|]. intros t _. exists ∅.
  unfold zset_view, MemRedis.fetch. rewrite Hk. split; [done|].
  assert (in_window t window ∅ = ∅) as ->
    by (unfold in_window; set_solver).
  by rewrite evict_empty, log_of_empty.
Qed.

(** One call under the invariant: the decision counts the seconds of [X]
    inside the window, and the call adds its own second to [X]. *)
Lemma is_allowed_inv key limit window X tl t db out :
  0 < window → tl ≤ t → 0 ≤ t →
  window_inv key window X tl db →
  ∃ db',
    RateLimiter.is_allowed key limit window (World t db out)
    = (Ok (bool_decide (Z.of_nat (size (in_window t window X)) < limit)),
       World t db' out)
    ∧ window_inv key window ({[t]} ∪ X) t db'.
Proof.
  intros HW Htl Ht [Hran Hview].
  destruct (Hview t Htl) as (z & Hz & Hev).
  eexists. split.
  { rewrite (is_allowed_step _ _ _ _ _ _ z HW Hz).
    by rewrite Hev, size_log_of. }
  split.
  { intros s [->%elem_of_singleton|Hs]%elem_of_union; [lia|].
    specialize (Hran s Hs). lia. }
  intros t' Ht'. eexists. split; [apply zset_view_insert_zset|].
  rewrite log_of_insert. case_bool_decide as Hd.
  - rewrite evict_log_of. f_equal. apply set_eq; intros s.
    unfold in_window. rewrite !elem_of_filter, !elem_of_union,
      !elem_of_filter, !elem_of_singleton.
    split.
    + intros [Hout [->|[? Hs]]]; [split; [lia|by left]|].
      specialize (Hran s Hs). split; [lia|by right].
    + intros [? [->|Hs]]; [split; [lia|by left]|].
      specialize (Hran s Hs). split; [lia|]. right. split; [lia|done].
  - rewrite evict_empty. rewrite <-log_of_empty. f_equal.
    apply set_eq; intros s. unfold in_window.
    rewrite elem_of_filter, elem_of_union, elem_of_singleton,
      elem_of_empty.
    split; [done|].
    intros [? [->|Hs]]; [lia|]. specialize (Hran s Hs). lia.
Qed.

Lemma last_cons_default (c : Z) l a b :
  List.last (c :: l) a = List.last (c :: l) b.
Proof. revert c. induction l as [|d l IH]; intros c; [done|apply IH]. Qed.

Lemma redis_at_time {R} t (w : world R) : redis (at_time t w) = redis w.
Proof. done. Qed.

Lemma calls_snoc `{RedisClient R} key limit window ts t (w : world R) :
  calls key limit window (ts ++ [t]) w
  = (RateLimiter.is_allowed key limit window
       (at_time t (calls key limit window ts w))).2.
Proof. unfold calls. by rewrite foldl_app. Qed.

(** A run of calls at non-decreasing clock values keeps the invariant,
    with the seconds of the run added. *)
Lemma calls_inv key limit window ts :
  ∀ X tl (w : world (gmap string entry)),
    0 < window → 0 ≤ tl →
    window_inv key window X tl (redis w) →
    Sorted Z.le (tl :: ts) →
    window_inv key window (list_to_set ts ∪ X) (List.last ts tl)
      (redis (calls key limit window ts w)).
Proof.
  induction ts as [|t ts IH]; intros X tl w HW Htl Hinv Hs.
  - simpl. by rewrite (left_id_L ∅ (∪)).
  - apply Sorted_inv in Hs as [Hs Hhd]. apply HdRel_inv in Hhd.
    destruct w as [t0 db out].
    destruct (is_allowed_inv key limit window X tl t db out)
      as (db' & Hrun & Hinv'); [done..|lia|done|].
    assert (calls key limit window (t :: ts) (World t0 db out)
            = calls key limit window ts (World t db' out)) as ->.
    { unfold calls at 1; simpl. unfold at_time; simpl. by rewrite Hrun. }
    replace (List.last (t :: ts) tl) with (List.last ts t)
      by (destruct ts as [|c l]; [done|exact (last_cons_default c l t tl)]).
    replace (list_to_set (t :: ts) ∪ X)
      with (list_to_set ts ∪ ({[t]} ∪ X) : gset Z) by set_solver.
    apply IH; [done|lia|done|done].
Qed.

(** The decision of a call is the count of the distinct seconds of the
    earlier calls, allowed or denied, that lie inside its window. *)
Lemma is_allowed_after_calls key limit window ts t
    (w : world (gmap string entry)) :
  0 < window →
  redis w !! key = None →
  Sorted Z.le (0 :: ts ++ [t]) →
  (RateLimiter.is_allowed key limit window
     (at_time t (calls key limit window ts w))).1
  = Ok (bool_decide
          (Z.of_nat (size (in_window t window (list_to_set ts))) < limit)).
Proof.
  intros HW Hfresh Hs.
  assert (Sorted Z.le (0 :: ts) ∧ List.last ts 0 ≤ t ∧ 0 ≤ t)
    as (Hs1 & Hlast & Ht).
  { clear -Hs.
    cut (∀ a, Sorted Z.le (a :: ts ++ [t]) →
              Sorted Z.le (a :: ts) ∧ List.last ts a ≤ t ∧ a ≤ t);
      [by auto|].
    clear Hs. induction ts as [|b ts IH]; intros a Hs; simpl in *.
    - apply Sorted_inv in Hs as [_ Hhd%HdRel_inv].
      split; [repeat constructor|]. lia.
    - apply Sorted_inv in Hs as [Hs Hhd%HdRel_inv].
      destruct (IH _ Hs) as (? & ? & ?).
      split; [constructor; [done|by constructor]|].
      split; [|lia]. destruct ts as [|c l]; [done|].
      by rewrite (last_cons_default c l a b). }
  pose proof (calls_inv key limit window ts ∅ 0 w HW (Z.le_refl 0)
                (window_inv_fresh _ _ _ _ Hfresh) Hs1) as Hinv.
  rewrite (right_id_L ∅ (∪)) in Hinv.
  destruct (calls key limit window ts w) as [t0 db out].
  destruct (is_allowed_inv key limit window _ _ t db out HW Hlast Ht Hinv)
    as (db' & Hrun & _).
  unfold at_time; simpl. by rewrite Hrun.
Qed.
End Window.

(** [get_remaining_requests] against the in-memory server: the quota left
    after eviction, without adding a member. *)
Lemma get_remaining_step key limit window now db out z :
  zset_view now key db = Some z →
  (RateLimiter.get_remaining_requests key limit window (World now db out)).1
  = Ok (Z.max 0 (limit - Z.of_nat (size (evict now window z)))).
Proof.
  intros Hview. unfold zset_view in Hview.
  unfold RateLimiter.get_remaining_requests, try_except, mbind, M_bind, bind,
    time_time, call, mret, M_ret, ret. simpl.
  destruct (MemRedis.fetch now key db) as [[[b|z0] d]|] eqn:Hf;
    simplify_eq/=.
  - fold (evict now window z).
    pose proof (fetch_alive _ _ _ _ Hf) as Ha.
    unfold MemRedis.alive in Ha; simpl in Ha.
    destruct (decide (size (evict now window z) = 0%nat)) as [Hz|Hz].
    + rewrite fetch_delete_eq. simpl. by rewrite Hz.
    + rewrite fetch_insert_eq. unfold MemRedis.alive; simpl.
      by rewrite Ha.
  - rewrite Hf. simpl. by rewrite evict_empty, map_size_empty.
Qed.

Lemma get_remaining_inv key limit window X tl t db out :
  tl ≤ t →
  window_inv key window X tl db →
  (RateLimiter.get_remaining_requests key limit window (World t db out)).1
  = Ok (Z.max 0 (limit - Z.of_nat (size (in_window t window X)))).
Proof.
  intros Htl [_ Hview]. destruct (Hview t Htl) as (z & Hz & Hev).
  by rewrite (get_remaining_step _ _ _ _ _ _ z Hz), Hev, size_log_of.
Qed.

(** ** C1: the sliding window *)

(** With calls at pairwise distinct seconds, the seconds inside the window
    are as many as the calls inside it. *)
Lemma size_in_window_NoDup t window (ts : list Z) :
  NoDup ts →
  size (in_window t window (list_to_set ts))
  = length (filter (λ s, t - window < s) ts).
Proof.
  intros Hnd.
  assert (in_window t window (list_to_set ts)
          = list_to_set (filter (λ s, t - window < s) ts)) as ->.
  { apply set_eq; intros s. unfold in_window.
    rewrite elem_of_filter, !elem_of_list_to_set, list_elem_of_filter.
    done. }
  apply size_list_to_set. by apply NoDup_filter.
Qed.

(** C1, as the code has it.  On a key that starts absent, with calls made at
    pairwise distinct seconds and a clock that does not run backwards, a
    call at time [t] is allowed exactly when fewer than [limit] of the
    earlier calls, allowed or denied, lie in the window (t - window, t].
    Hence: after [limit] or more calls, all inside the window of [t], the
    call at [t] is denied; and a first event that is [window] or more
    seconds old has aged out, the decision being taken on the later calls
    alone, denied ones included. *)
Theorem sliding_window key limit window ts t
    (w : world (gmap string entry)) :
  0 < window →
  redis w !! key = None →
  Sorted Z.le (0 :: ts ++ [t]) →
  NoDup ts →
  let decision :=
    (RateLimiter.is_allowed key limit window
       (at_time t (calls key limit window ts w))).1 in
  let counted (l : list Z) :=
    Z.of_nat (length (filter (λ s, t - window < s) l)) in
  decision = Ok (bool_decide (counted ts < limit))
  ∧ (limit ≤ Z.of_nat (length ts) →
     Forall (λ s, t - window < s) ts →
     decision = Ok false)
  ∧ (∀ t1 ts', ts = t1 :: ts' → t1 + window ≤ t →
     decision = Ok (bool_decide (counted ts' < limit))).
Proof.
  intros HW Hfresh Hs Hnd decision counted.
  assert (decision = Ok (bool_decide (counted ts < limit))) as Hd.
  { subst decision counted. cbv beta.
    rewrite <-size_in_window_NoDup by done.
    by apply is_allowed_after_calls. }
  split; [done|]. split.
  - intros Hlen Hall. rewrite Hd. f_equal.
    apply bool_decide_eq_false. subst counted. cbv beta.
    assert (filter (λ s, t - window < s) ts = ts) as ->; [|lia].
    clear -Hall. induction Hall as [|s l Hs _ IH]; [done|].
    rewrite filter_cons_True by done. by rewrite IH.
  - intros t1 ts' -> Hold. rewrite Hd. subst counted. cbv beta.
    by rewrite filter_cons_False by lia.
Qed.

Lemma sliding_window_witness :
  (RateLimiter.is_allowed "k" 2 60
     (at_time 1059 (calls "k" 2 60 [1000; 1030] fresh))).1
  = Ok false.
Proof.
  refine (proj1 (proj2 (sliding_window "k" 2 60 [1000; 1030] 1059 fresh
                          _ _ _ _)) _ _).
  - lia.
  - reflexivity.
  - repeat constructor; lia.
  - repeat constructor; set_solver.
  - simpl. lia.
  - repeat constructor; lia.
Defined.

(** C1 as the spec words it fails twice.  With limit 2, three calls in one
    second are all admitted, the third included, because the three share one
    member.  With limit 1 and window 60, a call 61 seconds after the first
    event is denied when a denied call was recorded 30 seconds in. *)
Lemma sliding_window_as_stated_fails :
  (RateLimiter.is_allowed "k" 2 60
     (at_time 1000 (calls "k" 2 60 [1000; 1000] fresh))).1 = Ok true
  ∧ (RateLimiter.is_allowed "k" 1 60
       (at_time 1030 (calls "k" 1 60 [1000] fresh))).1 = Ok false
  ∧ (RateLimiter.is_allowed "k" 1 60
       (at_time 1061 (calls "k" 1 60 [1000; 1030] fresh))).1 = Ok false.
Proof. vm_compute. done. Qed.

(** ** C2: the event is recorded whatever the decision *)

(** C2.  A call of [is_allowed] decides on the member count taken after
    eviction and before insertion, and leaves the member of the current
    second in the log whether it allowed or denied.  With limit 1 and window
    60 on a key that starts absent: the first call returns true, a second
    call inside the window returns false, and [get_remaining_requests]
    after it returns 0. *)
Theorem event_recorded_regardless key (w : world (gmap string entry)) :
  (∀ limit window now z,
     0 < window →
     zset_view now key (redis w) = Some z →
     let r := RateLimiter.is_allowed key limit window (at_time now w) in
     r.1 = Ok (bool_decide (Z.of_nat (size (evict now window z)) < limit))
     ∧ zset_view now key (redis r.2)
       = Some (<[pretty now := now]> (evict now window z))
     ∧ (<[pretty now := now]> (evict now window z)) !! pretty now
       = Some now)
  ∧ (∀ t1 t2 t3,
       redis w !! key = None →
       0 ≤ t1 → t1 ≤ t2 → t2 ≤ t3 → t3 < t1 + 60 →
       let first := RateLimiter.is_allowed key 1 60 (at_time t1 w) in
       let second := RateLimiter.is_allowed key 1 60 (at_time t2 first.2) in
       first.1 = Ok true
       ∧ second.1 = Ok false
       ∧ (RateLimiter.get_remaining_requests key 1 60
            (at_time t3 second.2)).1 = Ok 0).
Proof.
  split.
  - intros limit window now z HW Hz r. subst r. destruct w as [t0 db out].
    unfold at_time; simpl in *.
    rewrite (is_allowed_step _ _ _ _ _ _ z HW Hz). simpl.
    split; [done|]. split; [|apply lookup_insert_eq].
    rewrite zset_view_insert_zset. rewrite bool_decide_eq_true_2 by lia.
    done.
  - intros t1 t2 t3 Hfresh H1 H12 H23 H31 first second.
    destruct w as [t0 db out]. simpl in Hfresh.
    destruct (is_allowed_inv key 1 60 ∅ 0 t1 db out)
      as (db1 & Hrun1 & Hinv1);
      [lia|lia|lia|by apply window_inv_fresh|].
    destruct (is_allowed_inv key 1 60 ({[t1]} ∪ ∅) t1 t2 db1 out)
      as (db2 & Hrun2 & Hinv2); [lia|lia|lia|exact Hinv1|].
    subst first second. unfold at_time; simpl.
    rewrite Hrun1. simpl. rewrite Hrun2. simpl.
    rewrite (get_remaining_inv key 1 60 _ t2 t3 db2 out H23 Hinv2).
    assert (in_window t1 60 (∅ : gset Z) = ∅) as ->
      by (unfold in_window; set_solver).
    assert (in_window t2 60 ({[t1]} ∪ ∅ : gset Z) = {[t1]}) as ->.
    { unfold in_window. apply set_eq; intros s.
      rewrite elem_of_filter, elem_of_union, elem_of_singleton,
        elem_of_empty. split; [naive_solver|]. intros ->. split; [lia|auto]. }
    rewrite size_empty, size_singleton.
    split; [done|]. split; [done|].
    f_equal.
    assert (t1 ∈ in_window t3 60 ({[t2]} ∪ ({[t1]} ∪ ∅) : gset Z)) as Hin.
    { unfold in_window. rewrite elem_of_filter. split; [lia|set_solver]. }
    assert (size (in_window t3 60 ({[t2]} ∪ ({[t1]} ∪ ∅) : gset Z)) ≠ 0%nat).
    { intros Hz%size_empty_inv. set_solver. }
    lia.
Qed.

Lemma event_recorded_regardless_witness :
  let first := RateLimiter.is_allowed "k" 1 60 (at_time 100 fresh) in
  let second := RateLimiter.is_allowed "k" 1 60 (at_time 100 first.2) in
  first.1 = Ok true
  ∧ second.1 = Ok false
  ∧ (RateLimiter.get_remaining_requests "k" 1 60
       (at_time 100 second.2)).1 = Ok 0.
Proof.
  refine (proj2 (event_recorded_regardless "k" fresh) 100 100 100 _ _ _ _ _).
  - reflexivity.
  - lia.
  - lia.
  - lia.
  - lia.
Defined.

(** ** C3: store failures *)

(** C3.  Against any client whatever, [is_allowed] and
    [get_remaining_requests] never raise; when the pipeline raises,
    [is_allowed] returns true; when either store call of
    [get_remaining_requests] raises, it returns the configured limit. *)
Theorem fail_open `{RedisClient R} key limit window (w : world R) :
  (∃ b, (RateLimiter.is_allowed key limit window w).1 = Ok b)
  ∧ (∀ e s,
       r_pipeline_execute (clock w)
         [ ZRemRangeByScore key 0 (clock w - window);
           ZCard key;
           ZAdd key (pretty (clock w)) (clock w);
           Expire key window ] (redis w) = (Raise e, s) →
       (RateLimiter.is_allowed key limit window w).1 = Ok true)
  ∧ (∃ n, (RateLimiter.get_remaining_requests key limit window w).1 = Ok n)
  ∧ (∀ e s,
       r_zremrangebyscore (clock w) key 0 (clock w - window) (redis w)
       = (Raise e, s) →
       (RateLimiter.get_remaining_requests key limit window w).1 = Ok limit)
  ∧ (∀ n s1 e s,
       r_zremrangebyscore (clock w) key 0 (clock w - window) (redis w)
       = (Ok n, s1) →
       r_zcard (clock w) key s1 = (Raise e, s) →
       (RateLimiter.get_remaining_requests key limit window w).1 = Ok limit).
Proof.
  unfold RateLimiter.is_allowed, RateLimiter.get_remaining_requests,
    try_except, mbind, M_bind, bind, time_time, call, print, py_index,
    mret, M_ret, ret, raise.
  simpl. repeat split.
  - destruct (r_pipeline_execute _ _ _) as [[results|e] s]; simpl; eauto.
    destruct (results !! 1%nat); simpl; eauto.
  - intros e s ->. done.
  - destruct (r_zremrangebyscore _ _ _ _ _) as [[n|e] s]; simpl; eauto.
    destruct (r_zcard _ _ _) as [[c|e] s']; simpl; eauto.
  - intros e s ->. done.
  - intros n s1 e s Hrem Hcard. rewrite Hrem; simpl. by rewrite Hcard.
Qed.

Lemma fail_open_witness :
  (RateLimiter.is_allowed "k" 5 60 (World 100 Down [])).1 = Ok true
  ∧ (RateLimiter.get_remaining_requests "k" 5 60 (World 100 Down [])).1
    = Ok 5.
Proof.
  pose proof (fail_open (R := down) "k" 5 60 (World 100 Down []))
    as (_ & Hopen & _ & Hsafe & _).
  split.
  - apply (Hopen unreachable Down). reflexivity.
  - apply (Hsafe unreachable Down). reflexivity.
Defined.

(** ** C4: one member per second *)

Section OnePerSecond.
Implicit Types (db : gmap string entry) (z : gmap string Z).

Lemma one_per_second_empty : one_per_second ∅.
Proof. intros m s. by rewrite lookup_empty. Qed.

Lemma one_per_second_evict now window z :
  one_per_second z → one_per_second (evict now window z).
Proof.
  intros Hz m s [Hm _]%map_lookup_filter_Some. by apply Hz.
Qed.

Lemma one_per_second_insert t z :
  one_per_second z → one_per_second (<[pretty t := t]> z).
Proof.
  intros Hz m s [[<- <-]|[_ Hm]]%lookup_insert_Some; [done|by apply Hz].
Qed.

Lemma evict_current t window :
  0 < window → 0 ≤ t →
  evict t window {[pretty t := t]} = {[pretty t := t]}.
Proof.
  intros. unfold evict. apply map_filter_singleton_True.
  unfold MemRedis.outside; simpl. lia.
Qed.

(** The logs a run of calls builds, at whatever clock values. *)
Lemma calls_one_per_second key limit window ts :
  ∀ (w : world (gmap string entry)),
    0 < window →
    (∀ t, ∃ z, zset_view t key (redis w) = Some z ∧ one_per_second z) →
    ∀ t, ∃ z, zset_view t key (redis (calls key limit window ts w)) = Some z
              ∧ one_per_second z.
Proof.
  induction ts as [|a ts IH]; intros w HW Hw; [done|].
  apply IH; [done|]. intros t.
  destruct (Hw a) as (z & Hz & Hone). destruct w as [t0 db out].
  unfold at_time; simpl in *.
  rewrite (is_allowed_step _ _ _ _ _ _ z HW Hz). simpl.
  rewrite zset_view_insert_zset. eexists; split; [done|].
  case_bool_decide; [|apply one_per_second_empty].
  by apply one_per_second_insert, one_per_second_evict.
Qed.

Lemma is_allowed_same_second key limit window t
    (w : world (gmap string entry)) :
  0 < window → 0 ≤ t →
  zset_view t key (redis w) = Some ∅
  ∨ zset_view t key (redis w) = Some {[pretty t := t]} →
  zset_view t key
    (redis (RateLimiter.is_allowed key limit window (at_time t w)).2)
  = Some {[pretty t := t]}.
Proof.
  intros HW Ht Hw. destruct w as [t0 db out]. unfold at_time; simpl in *.
  destruct Hw as [Hz|Hz];
    rewrite (is_allowed_step _ _ _ _ _ _ _ HW Hz); simpl;
    rewrite zset_view_insert_zset, bool_decide_eq_true_2 by lia.
  - by rewrite evict_empty, insert_empty.
  - rewrite evict_current by done. by rewrite insert_singleton_eq.
Qed.

Lemma calls_same_second key limit window t n :
  ∀ (w : world (gmap string entry)),
    0 < window → 0 ≤ t →
    zset_view t key (redis w) = Some ∅
    ∨ zset_view t key (redis w) = Some {[pretty t := t]} →
    zset_view t key
      (redis (calls key limit window (replicate (S n) t) w))
    = Some {[pretty t := t]}.
Proof.
  induction n as [|n IH]; intros w HW Ht Hw.
  - by apply is_allowed_same_second.
  - rewrite replicate_S.
    change (calls key limit window (t :: replicate (S n) t) w)
      with (calls key limit window (replicate (S n) t)
              (RateLimiter.is_allowed key limit window (at_time t w)).2).
    apply IH; [done..|]. right. by apply is_allowed_same_second.
Qed.
End OnePerSecond.

(** C4.  On a key that starts absent, whatever the clock values of the calls:
    every member of the log is the text of its own score, so two members
    with the same second are one member; and any number of calls within one
    second leaves exactly one member, the log's count being 1. *)
Theorem at_most_one_event_per_second key limit window
    (w : world (gmap string entry)) :
  0 < window →
  redis w !! key = None →
  (∀ ts t, ∃ z,
     zset_view t key (redis (calls key limit window ts w)) = Some z
     ∧ one_per_second z
     ∧ ∀ m1 m2 s, z !! m1 = Some s → z !! m2 = Some s → m1 = m2)
  ∧ (∀ n t, 0 ≤ t →
       zset_view t key
         (redis (calls key limit window (replicate (S n) t) w))
       = Some {[pretty t := t]}
       ∧ size ({[pretty t := t]} : gmap string Z) = 1%nat).
Proof.
  intros HW Hfresh.
  assert (∀ t, zset_view t key (redis w) = Some ∅) as Hv.
  { intros t. unfold zset_view, MemRedis.fetch. by rewrite Hfresh. }
  split.
  - intros ts t.
    destruct (calls_one_per_second key limit window ts w HW) with (t := t)
      as (z & Hz & Hone).
    { intros t'. exists ∅. split; [apply Hv|apply one_per_second_empty]. }
    exists z. split; [done|]. split; [done|].
    intros m1 m2 s H1 H2. by rewrite (Hone _ _ H1), (Hone _ _ H2).
  - intros n t Ht. split; [|apply map_size_singleton].
    apply calls_same_second; [done..|]. left. apply Hv.
Qed.

Lemma at_most_one_event_per_second_witness :
  zset_view 100 "k" (redis (calls "k" 5 60 (replicate 3 100) fresh))
  = Some {[pretty 100 := 100]}.
Proof.
  refine (proj1 (proj2 (at_most_one_event_per_second "k" 5 60 fresh _ _)
                   2%nat 100 _)).
  - lia.
  - reflexivity.
  - lia.
Defined.

(** ** Keys do not share state *)

Section Locality.
Implicit Types (db : gmap string entry).

Lemma zexec_frame now c db key' :
  key' ≠ zkey c → (MemRedis.zexec now c db).2 !! key' = db !! key'.
Proof.
  intros Hne. destruct c as [key lo hi|key|key m sc|key secs]; simpl in *;
    destruct (MemRedis.fetch now key db) as [[[b|z] d]|]; simpl;
    repeat case_decide; simpl;
    by rewrite ?lookup_insert_ne, ?lookup_delete_ne by done.
Qed.

Lemma zexec_local now c db1 db2 :
  db1 !! zkey c = db2 !! zkey c →
  (MemRedis.zexec now c db1).1 = (MemRedis.zexec now c db2).1
  ∧ (MemRedis.zexec now c db1).2 !! zkey c
    = (MemRedis.zexec now c db2).2 !! zkey c.
Proof.
  intros Heq.
  assert (MemRedis.fetch now (zkey c) db1 = MemRedis.fetch now (zkey c) db2)
    as Hf by (unfold MemRedis.fetch; by rewrite Heq).
  destruct c as [key lo hi|key|key m sc|key secs]; simpl in *;
    rewrite Hf;
    destruct (MemRedis.fetch now key db2) as [[[b|z] d]|]; simpl;
    repeat case_decide; simpl;
    by rewrite ?lookup_insert_eq, ?lookup_delete_eq.
Qed.

Lemma run_queue_frame now cs key key' :
  Forall (λ c, zkey c = key) cs → key' ≠ key →
  ∀ db, (MemRedis.run_queue now cs db).2 !! key' = db !! key'.
Proof.
  intros Hcs Hne. induction Hcs as [|c cs Hc _ IH]; intros db; [done|].
  simpl. destruct (MemRedis.zexec now c db) as [r db1] eqn:Hz.
  specialize (IH db1).
  destruct (MemRedis.run_queue now cs db1) as [rs db2]; simpl in *.
  rewrite IH. change db1 with (r, db1).2. rewrite <-Hz.
  apply zexec_frame. by rewrite Hc.
Qed.

Lemma run_queue_local now cs key :
  Forall (λ c, zkey c = key) cs →
  ∀ db1 db2, db1 !! key = db2 !! key →
    (MemRedis.run_queue now cs db1).1 = (MemRedis.run_queue now cs db2).1.
Proof.
  intros Hcs. induction Hcs as [|c cs Hc _ IH]; intros db1 db2 Heq;
    [done|].
  simpl. rewrite <-Hc in Heq.
  destruct (zexec_local now c db1 db2 Heq) as [Hr Hdb]. rewrite Hc in Hdb.
  destruct (MemRedis.zexec now c db1) as [r1 db1'],
    (MemRedis.zexec now c db2) as [r2 db2']; simpl in *. subst r2.
  specialize (IH db1' db2' Hdb).
  destruct (MemRedis.run_queue now cs db1') as [rs1 db1''],
    (MemRedis.run_queue now cs db2') as [rs2 db2'']; simpl in *.
  by subst.
Qed.

(** The decision and the store left by [is_allowed], read off the
    pipeline. *)
Lemma is_allowed_pipeline key limit window t db out :
  let p := MemRedis.run_queue t
             [ ZRemRangeByScore key 0 (t - window); ZCard key;
               ZAdd key (pretty t) t; Expire key window ] db in
  (RateLimiter.is_allowed key limit window (World t db out)).1
  = match MemRedis.collect p.1 with
    | Ok results =>
        match results !! 1%nat with
        | Some c => Ok (bool_decide (c < limit))
        | None => Ok true
        end
    | Raise _ => Ok true
    end
  ∧ redis (RateLimiter.is_allowed key limit window (World t db out)).2
    = p.2.
Proof.
  intros p.
  unfold RateLimiter.is_allowed, try_except, mbind, M_bind, bind,
    time_time, call, print, py_index, mret, M_ret, ret, raise.
  cbn [clock redis stdout r_pipeline_execute mem_redis].
  unfold MemRedis.pipeline_execute. fold p.
  destruct p as [rs db']. cbn [fst snd].
  destruct (MemRedis.collect rs) as [results|e]; simpl; [|done].
  by destruct (results !! 1%nat).
Qed.

Lemma is_allowed_frame key key' limit window t db out :
  key' ≠ key →
  redis (RateLimiter.is_allowed key limit window (World t db out)).2 !! key'
  = db !! key'.
Proof.
  intros Hne.
  destruct (is_allowed_pipeline key limit window t db out) as [_ ->].
  apply (run_queue_frame _ _ key); [|done]. by repeat constructor.
Qed.

Lemma is_allowed_local key limit window t db1 db2 out1 out2 :
  db1 !! key = db2 !! key →
  (RateLimiter.is_allowed key limit window (World t db1 out1)).1
  = (RateLimiter.is_allowed key limit window (World t db2 out2)).1.
Proof.
  intros Heq.
  destruct (is_allowed_pipeline key limit window t db1 out1) as [-> _].
  destruct (is_allowed_pipeline key limit window t db2 out2) as [-> _].
  rewrite (run_queue_local t _ key) with (db2 := db2); [done| |done].
  by repeat constructor.
Qed.
End Locality.

(** ** C9: the two key scopes *)

(** C9 as stated fails at subject id 0: the id is present, and the key is in
    the network-origin scope, not in the subject scope. *)
Lemma subject_zero_gets_origin_key :
  is_Some (Some 0 : option Z)
  ∧ get_rate_limit_key (Request (Some "10.0.0.1") (Some 0)) (Some 0)
    = Ok "rate_limit:ip:10.0.0.1"
  ∧ ¬ ∃ id, "rate_limit:ip:10.0.0.1" = "rate_limit:user:" +:+ id.
Proof.
  split; [by eexists|]. split; [reflexivity|].
  intros [id Hid]. simpl in Hid. discriminate Hid.
Qed.

(** C9, as the code has it.  The key is in the subject scope when a subject
    id is present and not 0, and in the network-origin scope when no subject
    id is present.  Keys of the two scopes never coincide; subject 7 and
    origin "7" get different keys; and a call of [is_allowed] on one key
    changes neither the stored log nor a later decision of any other key. *)
Theorem scope_isolation :
  (∀ host state uid, uid ≠ 0 →
     get_rate_limit_key (Request (Some host) state) (Some uid)
     = Ok ("rate_limit:user:" +:+ pretty uid))
  ∧ (∀ host state,
     get_rate_limit_key (Request (Some host) state) None
     = Ok ("rate_limit:ip:" +:+ host))
  ∧ (∀ (uid : Z) host,
       "rate_limit:user:" +:+ pretty uid ≠ "rate_limit:ip:" +:+ host)
  ∧ (get_rate_limit_key (Request (Some "7") (Some 7)) (Some 7)
     = Ok "rate_limit:user:7"
     ∧ get_rate_limit_key (Request (Some "7") None) None
       = Ok "rate_limit:ip:7")
  ∧ (∀ key key' limit window limit' window' t t'
       (w : world (gmap string entry)),
       key ≠ key' →
       let w' := (RateLimiter.is_allowed key limit window (at_time t w)).2 in
       redis w' !! key' = redis w !! key'
       ∧ (RateLimiter.is_allowed key' limit' window' (at_time t' w')).1
         = (RateLimiter.is_allowed key' limit' window' (at_time t' w)).1).
Proof.
  split; [|split; [|split; [|split]]].
  - intros host state uid Huid. unfold get_rate_limit_key; simpl.
    by rewrite bool_decide_eq_true_2.
  - done.
  - intros uid host Heq. simpl in Heq. discriminate Heq.
  - split; reflexivity.
  - intros key key' limit window limit' window' t t' w Hne w'.
    destruct w as [t0 db out]. subst w'. unfold at_time; simpl.
    assert (redis (RateLimiter.is_allowed key limit window
                     (World t db out)).2 !! key' = db !! key') as Hfr
      by (by apply is_allowed_frame).
    split; [done|].
    destruct (RateLimiter.is_allowed key limit window (World t db out))
      as [r [t1 db1 out1]]; simpl in *.
    by apply is_allowed_local.
Qed.

Lemma scope_isolation_witness :
  get_rate_limit_key (Request (Some "7") (Some 7)) (Some 7)
  = Ok ("rate_limit:user:" +:+ pretty 7)
  ∧ (RateLimiter.is_allowed "rate_limit:ip:7" 1 60
       (at_time 100
          (RateLimiter.is_allowed "rate_limit:user:7" 1 60
             (at_time 100 fresh)).2)).1
    = (RateLimiter.is_allowed "rate_limit:ip:7" 1 60 (at_time 100 fresh)).1.
Proof.
  pose proof scope_isolation as (Huser & _ & _ & _ & Hiso).
  split.
  - apply (Huser "7" (Some 7) 7). lia.
  - refine (proj2 (Hiso "rate_limit:user:7" "rate_limit:ip:7"
                     1 60 1 60 100 100 fresh _)).
    intros Heq. discriminate Heq.
Defined.

(** ** C10: the decorator without a request *)

(** C10 as stated fails at subject id 0: the call is not admitted
    unconditionally.  The limiter is consulted under the origin's key, the
    event is recorded, and with the quota used up the wrapped function is
    not run: the wrapper raises the 429 error. *)
Lemma subject_zero_is_still_limited :
  let req := Request (Some "10.0.0.1") (Some 0) in
  let func := λ (_ : list arg) (_ : unit), mret (VStr "served") in
  let w := calls "rate_limit:ip:10.0.0.1" 1 60 [100] fresh in
  let r := rate_limit 1 60 func [ARequest req] () (at_time 101 w) in
  r.1 = Raise (too_many_requests 1 60 0 101)
  ∧ zset_view 101 "rate_limit:ip:10.0.0.1" (redis r.2)
    = Some {[ "100" := 100; "101" := 101 ]}.
Proof. vm_compute. done. Qed.

(** C10, as the code has it.  When no request object is among the positional
    arguments, the wrapper is the wrapped function: same result, same store,
    nothing printed.  A subject id equal to 0 is treated as absent for the
    choice of the key only: the limiter is consulted under the key of the
    network origin, and the call goes through the same admission check as a
    call without a subject id. *)
Theorem rate_limit_without_request `{RedisClient R} {K A : Type}
    (limit window : Z) (func : list arg → K → M (world R) A)
    (args : list arg) (kwargs : K) (w : world R) :
  (find_request args = None →
   rate_limit limit window func args kwargs w = func args kwargs w)
  ∧ (∀ host uid,
       uid = None ∨ uid = Some 0 →
       find_request args = Some (Request (Some host) uid) →
       rate_limit limit window func args kwargs w
       = (is_allowed ←
            RateLimiter.is_allowed ("rate_limit:ip:" +:+ host) limit window;
          if negb is_allowed then
            remaining ←
              RateLimiter.get_remaining_requests
                ("rate_limit:ip:" +:+ host) limit window;
            now ← time_time;
            raise (too_many_requests limit window remaining now)
          else func args kwargs) w).
Proof.
  split.
  - intros Hnone. unfold rate_limit. by rewrite Hnone.
  - intros host uid Huid Hreq. unfold rate_limit. rewrite Hreq.
    by destruct Huid as [-> | ->].
Qed.

Lemma rate_limit_without_request_witness :
  rate_limit 1 60 (λ (_ : list arg) (_ : unit), mret (VStr "served"))
    [AValue (VInt 3)] () (at_time 100 fresh)
  = (Ok (VStr "served"), at_time 100 fresh).
Proof.
  refine (proj1 (rate_limit_without_request 1 60
                   (λ (_ : list arg) (_ : unit), mret (VStr "served"))
                   [AValue (VInt 3)] () (at_time 100 fresh)) _).
  reflexivity.
Defined.

(** ** The cache *)

Ltac unfold_monad :=
  unfold try_except, try_except_on, mbind, M_bind, bind, mret, M_ret, ret,
    raise, lift, time_time, call, print.

Section CacheFacts.
Context `{Codec}.
Implicit Types (db : gmap string entry) (self : cache_manager).

(** What [set] hands to SETEX when [json.dumps] succeeds. *)
Lemma set_json self key v ttl text t db out :
  json_dumps v = Ok text →
  0 < py_or ttl (default_ttl self) →
  CacheManager.set self key v ttl true (World t db out)
  = (Ok true,
     World t (<[key := Entry (RString text)
                         (Some (t + py_or ttl (default_ttl self)))]> db)
           out).
Proof.
  intros Hj Httl. unfold CacheManager.set. unfold_monad. rewrite Hj. simpl.
  unfold MemRedis.setex. by case_decide; [lia|].
Qed.

(** What [set] hands to SETEX when [json.dumps] raises a [TypeError] or a
    [ValueError]. *)
Lemma set_pickle self key v ttl e blob t db out :
  json_dumps v = Raise e →
  existsb (isinstance_of (exn_cls e)) [TypeError; ValueError] = true →
  pickle_dumps v = Ok blob →
  0 < py_or ttl (default_ttl self) →
  CacheManager.set self key v ttl true (World t db out)
  = (Ok true,
     World t (<[key := Entry (RString blob)
                         (Some (t + py_or ttl (default_ttl self)))]> db)
           out).
Proof.
  intros Hj Hc Hp Httl. unfold CacheManager.set. unfold_monad.
  rewrite Hj. cbn [fst snd]. rewrite Hc, Hp. simpl.
  unfold MemRedis.setex. by case_decide; [lia|].
Qed.

Lemma get_absent self key d t db out :
  MemRedis.fetch t key db = None →
  CacheManager.get self key d (World t db out) = (Ok VNone, World t db out).
Proof.
  intros Hf. unfold CacheManager.get. unfold_monad. simpl.
  unfold MemRedis.get. by rewrite Hf.
Qed.

Lemma get_json self key b dl text v t db out :
  MemRedis.fetch t key db = Some (Entry (RString b) dl) →
  utf8_decode b = Ok text →
  json_loads text = Ok v →
  CacheManager.get self key true (World t db out) = (Ok v, World t db out).
Proof.
  intros Hf Hu Hj. unfold CacheManager.get. unfold_monad. simpl.
  unfold MemRedis.get. rewrite Hf. simpl. by rewrite Hu, Hj.
Qed.

(** The stored bytes are no UTF-8 text: [get] falls back to
    [pickle.loads]. *)
Lemma get_pickle self key b dl e v t db out :
  MemRedis.fetch t key db = Some (Entry (RString b) dl) →
  utf8_decode b = Raise e →
  existsb (isinstance_of (exn_cls e)) [JSONDecodeError; UnicodeDecodeError]
  = true →
  pickle_loads b = Ok v →
  CacheManager.get self key true (World t db out) = (Ok v, World t db out).
Proof.
  intros Hf Hu Hc Hp. unfold CacheManager.get. unfold_monad.
  cbn -[existsb]. unfold MemRedis.get. rewrite Hf. cbn -[existsb].
  rewrite Hu. cbn -[existsb]. by rewrite Hc, Hp.
Qed.

Lemma fetch_stored t t' key b ttl db :
  MemRedis.fetch t' key (<[key := Entry (RString b) (Some (t + ttl))]> db)
  = if bool_decide (t' < t + ttl)
    then Some (Entry (RString b) (Some (t + ttl))) else None.
Proof. by rewrite fetch_insert_eq. Qed.


(** [set] through pickle, then [get]. *)
Lemma set_get_pickle self key v v' ttl e e' blob t now db out :
  json_dumps v = Raise e →
  existsb (isinstance_of (exn_cls e)) [TypeError; ValueError] = true →
  pickle_dumps v = Ok blob →
  utf8_decode blob = Raise e' →
  existsb (isinstance_of (exn_cls e'))
    [JSONDecodeError; UnicodeDecodeError] = true →
  pickle_loads blob = Ok v' →
  0 < py_or ttl (default_ttl self) →
  let stored := CacheManager.set self key v ttl true (World t db out) in
  stored.1 = Ok true
  ∧ (CacheManager.get self key true (at_time now stored.2)).1
    = Ok (if bool_decide (now < t + py_or ttl (default_ttl self))
          then v' else VNone).
Proof.
  intros Hj Hc Hp Hu Hc' Hl Httl stored. subst stored.
  rewrite (set_pickle _ _ _ _ e blob) by done.
  cbn [fst snd]. unfold at_time; cbn [clock redis stdout].
  split; [done|]. case_bool_decide as Hnow.
  - erewrite (get_pickle _ _ blob _ e' v'); [done| |done..].
    rewrite fetch_stored. by rewrite bool_decide_eq_true_2.
  - rewrite get_absent; [done|].
    rewrite fetch_stored. by rewrite bool_decide_eq_false_2.
Qed.
End CacheFacts.

(** ** C7: structured round trip and expiry *)



(** ** C5: the pickle fallback *)

(** C5 as stated fails on a raw binary blob.  [json.dumps] is called with
    [default=str], so the blob is encodable: it is stored as the JSON string
    of its [repr], the pickle fallback is not taken, and [get] returns that
    text, a [str], not the blob. *)
Lemma blob_does_not_round_trip :
  let stored := CacheManager.set cache "k" blob None true (at_time 100 fresh) in
  stored.1 = Ok true
  ∧ json_dumps blob = Ok (Py.json_string "b'\x00\xff'")
  ∧ (CacheManager.get cache "k" true stored.2).1 = Ok (VStr "b'\x00\xff'")
  ∧ VStr "b'\x00\xff'" ≠ blob.
Proof. vm_compute. repeat split; done. Qed.

(** C5, as the code has it.  A value on which [json.dumps(value,
    default=str)] raises a [TypeError] or a [ValueError] is stored pickled,
    and, the pickle being no UTF-8 text and [pickle.loads] inverting
    [pickle.dumps] on it, a [get] while the entry lives returns the value. *)
Theorem pickle_fallback_round_trip `{Codec} self key v ttl e e' pickled
    t now (db : gmap string entry) out :
  json_dumps v = Raise e →
  existsb (isinstance_of (exn_cls e)) [TypeError; ValueError] = true →
  pickle_dumps v = Ok pickled →
  utf8_decode pickled = Raise e' →
  existsb (isinstance_of (exn_cls e')) [JSONDecodeError; UnicodeDecodeError]
  = true →
  pickle_loads pickled = Ok v →
  0 < py_or ttl (default_ttl self) →
  now < t + py_or ttl (default_ttl self) →
  let stored := CacheManager.set self key v ttl true (World t db out) in
  stored.1 = Ok true
  ∧ MemRedis.get now key (redis stored.2) = (Ok (Some pickled), redis stored.2)
  ∧ (CacheManager.get self key true (at_time now stored.2)).1 = Ok v.
Proof.
  intros Hj Hc Hp Hu Hc' Hl Httl Hnow stored.
  destruct (set_get_pickle self key v v ttl e e' pickled t now db out)
    as [Hset Hget]; [done..|].
  rewrite bool_decide_eq_true_2 in Hget by done.
  split; [done|]. split; [|done].
  subst stored. rewrite (set_pickle _ _ _ _ e pickled) by done.
  cbn [snd redis]. unfold MemRedis.get. rewrite fetch_stored.
  by rewrite bool_decide_eq_true_2.
Qed.

Lemma pickle_fallback_round_trip_witness :
  (CacheManager.get cache "k" true
     (at_time 100
        (CacheManager.set cache "k" tuple_keyed None true
           (World 100 (∅ : gmap string entry) [])).2)).1
  = Ok tuple_keyed.
Proof.
  eapply (pickle_fallback_round_trip cache "k" tuple_keyed None).
  - vm_compute. reflexivity.
  - reflexivity.
  - vm_compute. reflexivity.
  - vm_compute. reflexivity.
  - reflexivity.
  - vm_compute. reflexivity.
  - vm_compute. reflexivity.
  - vm_compute. reflexivity.
Defined.

(** ** C6: what [set] stores *)

(** C6 as stated fails: when [json.dumps] fails, what [set] stores is the
    pickle of the value, not the text of [str(value)]. *)
Lemma encode_failure_stores_pickle :
  let stored :=
    CacheManager.set cache "k" tuple_keyed None true (at_time 100 fresh) in
  ∃ pickled,
    json_dumps tuple_keyed
    = Raise (Exn TypeError "keys must be str, int, float, bool or None")
    ∧ pickle_dumps tuple_keyed = Ok pickled
    ∧ redis stored.2 !! "k" = Some (Entry (RString pickled) (Some 3700))
    ∧ py_str tuple_keyed = Ok "{(1, 2): 3}"
    ∧ pickled ≠ "{(1, 2): 3}".
Proof. eexists. vm_compute. repeat split; done. Qed.

(** C6, as the code has it.  With serialization on, [set] first attempts
    [json.dumps(value, default=str)] and stores its text; when that raises
    a [TypeError] or a [ValueError], it stores [pickle.dumps(value)].  The
    UTF-8 bytes of [str(value)] are what it stores with serialization
    off. *)
Theorem set_encoding_fallback `{RedisClient R} `{Codec} self key value ttl
    (w : world R) :
  let store payload :=
    try_except
      (call (λ now, r_setex now key (py_or ttl (default_ttl self)) payload))
      (λ e, print ("Cache set error: " +:+ str_exn e);; mret false) w in
  (∀ text, json_dumps value = Ok text →
     CacheManager.set self key value ttl true w = store (PText text))
  ∧ (∀ e pickled,
       json_dumps value = Raise e →
       existsb (isinstance_of (exn_cls e)) [TypeError; ValueError] = true →
       pickle_dumps value = Ok pickled →
       CacheManager.set self key value ttl true w = store (PBytes pickled))
  ∧ (∀ text raw,
       py_str value = Ok text →
       utf8_encode text = Ok raw →
       CacheManager.set self key value ttl false w = store (PBytes raw)).
Proof.
  intros store. subst store. unfold CacheManager.set. unfold_monad.
  split; [|split].
  - intros text ->. done.
  - intros e pickled -> Hc ->. cbn -[existsb]. by rewrite Hc.
  - intros text raw -> ->. done.
Qed.

Lemma set_encoding_fallback_witness :
  ∃ pickled,
    pickle_dumps tuple_keyed = Ok pickled
    ∧ CacheManager.set cache "k" tuple_keyed None true (at_time 100 fresh)
      = (Ok true,
         World 100 {[ "k" := Entry (RString pickled) (Some 3700) ]} []).
Proof.
  eexists. split; [vm_compute; reflexivity|].
  etrans.
  - eapply (proj1 (proj2 (set_encoding_fallback cache "k" tuple_keyed None
                            (at_time 100 fresh)))).
    + vm_compute. reflexivity.
    + reflexivity.
    + vm_compute. reflexivity.
  - vm_compute. reflexivity.
Defined.

(** ** C8: the cache never raises *)

(** C8.  Against any client and any codec: [get], [set], [delete],
    [exists] and [clear_pattern] return a value in every world, and so does
    [get_or_set] when the producer does.  On every route by which the body
    of an operation can fail, the error is printed and the result is [None]
    for [get], [False] for [set], [delete] and [exists], and 0 for
    [clear_pattern].  The routes are, for [get]: the store call; both
    decodings failing, on bytes that are no UTF-8 text and on text that is
    no JSON; a decoding error that the inner handler does not catch; the
    decoding of raw text.  For [set]: the store call after either encoding
    or after the raw encoding; both encodings failing; an encoding error
    that the inner handler does not catch; [str] or the UTF-8 encoding
    failing.  For [delete] and [exists]: the store call.  For
    [clear_pattern]: either store call. *)
Theorem cache_never_raises `{RedisClient R} `{Codec} self (w : world R) :
  let logged s (line : string) := World (clock w) s (stdout w ++ [line]) in
  let caught_on_get (e : exn) :=
    existsb (isinstance_of (exn_cls e)) [JSONDecodeError; UnicodeDecodeError] in
  let caught_on_set (e : exn) :=
    existsb (isinstance_of (exn_cls e)) [TypeError; ValueError] in
  (∀ key d, ∃ v, (CacheManager.get self key d w).1 = Ok v)
  ∧ (∀ key value ttl ser,
       ∃ b, (CacheManager.set self key value ttl ser w).1 = Ok b)
  ∧ (∀ key, ∃ b, (CacheManager.delete self key w).1 = Ok b)
  ∧ (∀ key, ∃ b, (CacheManager.exists_ self key w).1 = Ok b)
  ∧ (∀ pattern, ∃ n, (CacheManager.clear_pattern self pattern w).1 = Ok n)
  ∧ (∀ key factory ttl,
       (∀ w', ∃ v, (factory w').1 = Ok v) →
       ∃ v, (CacheManager.get_or_set self key factory ttl w).1 = Ok v)
  ∧ (∀ key d e s,
       r_get (clock w) key (redis w) = (Raise e, s) →
       CacheManager.get self key d w
       = (Ok VNone, logged s ("Cache get error: " +:+ str_exn e)))
  ∧ (∀ key stored e1 e2 s,
       r_get (clock w) key (redis w) = (Ok (Some stored), s) →
       utf8_decode stored = Raise e1 →
       caught_on_get e1 = true →
       pickle_loads stored = Raise e2 →
       CacheManager.get self key true w
       = (Ok VNone, logged s ("Cache get error: " +:+ str_exn e2)))
  ∧ (∀ key value ttl text e s,
       json_dumps value = Ok text →
       r_setex (clock w) key (py_or ttl (default_ttl self)) (PText text)
         (redis w) = (Raise e, s) →
       CacheManager.set self key value ttl true w
       = (Ok false, logged s ("Cache set error: " +:+ str_exn e)))
  ∧ (∀ key value ttl e1 pickled e s,
       json_dumps value = Raise e1 →
       caught_on_set e1 = true →
       pickle_dumps value = Ok pickled →
       r_setex (clock w) key (py_or ttl (default_ttl self)) (PBytes pickled)
         (redis w) = (Raise e, s) →
       CacheManager.set self key value ttl true w
       = (Ok false, logged s ("Cache set error: " +:+ str_exn e)))
  ∧ (∀ key value ttl e1 e2,
       json_dumps value = Raise e1 →
       caught_on_set e1 = true →
       pickle_dumps value = Raise e2 →
       CacheManager.set self key value ttl true w
       = (Ok false, logged (redis w) ("Cache set error: " +:+ str_exn e2)))
  ∧ (∀ key e s,
       r_delete (clock w) [key] (redis w) = (Raise e, s) →
       CacheManager.delete self key w
       = (Ok false, logged s ("Cache delete error: " +:+ str_exn e)))
  ∧ (∀ key e s,
       r_exists (clock w) key (redis w) = (Raise e, s) →
       CacheManager.exists_ self key w
       = (Ok false, logged s ("Cache exists error: " +:+ str_exn e)))
  ∧ (∀ pattern e s,
       r_keys (clock w) pattern (redis w) = (Raise e, s) →
       CacheManager.clear_pattern self pattern w
       = (Ok 0, logged s ("Cache clear pattern error: " +:+ str_exn e)))
  ∧ (∀ pattern k ks s1 e s,
       r_keys (clock w) pattern (redis w) = (Ok (k :: ks), s1) →
       r_delete (clock w) (k :: ks) s1 = (Raise e, s) →
       CacheManager.clear_pattern self pattern w
       = (Ok 0, logged s ("Cache clear pattern error: " +:+ str_exn e)))
  ∧ (∀ key stored text e1 e2 s,
       r_get (clock w) key (redis w) = (Ok (Some stored), s) →
       utf8_decode stored = Ok text →
       json_loads text = Raise e1 →
       caught_on_get e1 = true →
       pickle_loads stored = Raise e2 →
       CacheManager.get self key true w
       = (Ok VNone, logged s ("Cache get error: " +:+ str_exn e2)))
  ∧ (∀ key stored e1 s,
       r_get (clock w) key (redis w) = (Ok (Some stored), s) →
       utf8_decode stored = Raise e1 →
       caught_on_get e1 = false →
       CacheManager.get self key true w
       = (Ok VNone, logged s ("Cache get error: " +:+ str_exn e1)))
  ∧ (∀ key stored text e1 s,
       r_get (clock w) key (redis w) = (Ok (Some stored), s) →
       utf8_decode stored = Ok text →
       json_loads text = Raise e1 →
       caught_on_get e1 = false →
       CacheManager.get self key true w
       = (Ok VNone, logged s ("Cache get error: " +:+ str_exn e1)))
  ∧ (∀ key stored e s,
       r_get (clock w) key (redis w) = (Ok (Some stored), s) →
       utf8_decode stored = Raise e →
       CacheManager.get self key false w
       = (Ok VNone, logged s ("Cache get error: " +:+ str_exn e)))
  ∧ (∀ key value ttl e1,
       json_dumps value = Raise e1 →
       caught_on_set e1 = false →
       CacheManager.set self key value ttl true w
       = (Ok false, logged (redis w) ("Cache set error: " +:+ str_exn e1)))
  ∧ (∀ key value ttl e,
       py_str value = Raise e →
       CacheManager.set self key value ttl false w
       = (Ok false, logged (redis w) ("Cache set error: " +:+ str_exn e)))
  ∧ (∀ key value ttl text e,
       py_str value = Ok text →
       utf8_encode text = Raise e →
       CacheManager.set self key value ttl false w
       = (Ok false, logged (redis w) ("Cache set error: " +:+ str_exn e)))
  ∧ (∀ key value ttl text raw e s,
       py_str value = Ok text →
       utf8_encode text = Ok raw →
       r_setex (clock w) key (py_or ttl (default_ttl self)) (PBytes raw)
         (redis w) = (Raise e, s) →
       CacheManager.set self key value ttl false w
       = (Ok false, logged s ("Cache set error: " +:+ str_exn e))).
Proof.
  intros logged caught_on_get caught_on_set.
  subst logged caught_on_get caught_on_set. cbv beta.
  assert (∀ key d w0, ∃ v, (CacheManager.get self key d w0).1 = Ok v)
    as Hget.
  { intros key d w0. unfold CacheManager.get. unfold_monad.
    cbn -[existsb]. repeat case_match; simplify_eq/=; eauto. }
  assert (∀ key value ttl ser w0,
            ∃ b, (CacheManager.set self key value ttl ser w0).1 = Ok b)
    as Hset.
  { intros key value ttl ser w0. unfold CacheManager.set. unfold_monad.
    cbn -[existsb]. repeat case_match; simplify_eq/=; eauto. }
  split; [by auto|]. split; [by auto|].
  split.
  { intros key. unfold CacheManager.delete. unfold_monad. simpl.
    repeat case_match; simplify_eq/=; eauto. }
  split.
  { intros key. unfold CacheManager.exists_. unfold_monad. simpl.
    repeat case_match; simplify_eq/=; eauto. }
  split.
  { intros pattern. unfold CacheManager.clear_pattern. unfold_monad. simpl.
    repeat case_match; simplify_eq/=; eauto. }
  split.
  { intros key factory ttl Hf. unfold CacheManager.get_or_set.
    unfold mbind, M_bind, bind, mret, M_ret, ret.
    destruct (Hget key true w) as [v Hv].
    destruct (CacheManager.get self key true w) as [r1 w1].
    simpl in Hv. subst r1.
    destruct v; eauto.
    destruct (Hf w1) as [v Hv].
    destruct (factory w1) as [r2 w2]. simpl in Hv. subst r2.
    destruct (Hset key v ttl true w2) as [b Hb].
    destruct (CacheManager.set self key v ttl true w2) as [r3 w3].
    simpl in Hb. subst r3. eauto. }
  unfold CacheManager.get, CacheManager.set, CacheManager.delete,
    CacheManager.exists_, CacheManager.clear_pattern.
  unfold_monad. repeat split.
  - intros key d e s ->. done.
  - intros key stored e1 e2 s -> Hu Hc Hp. cbn -[existsb].
    rewrite Hu. cbn -[existsb]. by rewrite Hc, Hp.
  - intros key value ttl text e s -> Hs. cbn. by rewrite Hs.
  - intros key value ttl e1 pickled e s -> Hc Hp Hs. cbn -[existsb].
    rewrite Hc, Hp. cbn. by rewrite Hs.
  - intros key value ttl e1 e2 -> Hc Hp. cbn -[existsb].
    by rewrite Hc, Hp.
  - intros key e s ->. done.
  - intros key e s ->. done.
  - intros pattern e s ->. done.
  - intros pattern k ks s1 e s -> Hd. cbn. by rewrite Hd.
  - intros key stored text e1 e2 s -> Hu Hj Hc Hp. cbn -[existsb].
    rewrite Hu. cbn -[existsb]. rewrite Hj. cbn -[existsb].
    by rewrite Hc, Hp.
  - intros key stored e1 s -> Hu Hc. cbn -[existsb].
    rewrite Hu. cbn -[existsb]. by rewrite Hc.
  - intros key stored text e1 s -> Hu Hj Hc. cbn -[existsb].
    rewrite Hu. cbn -[existsb]. rewrite Hj. cbn -[existsb].
    by rewrite Hc.
  - intros key stored e s -> Hu. cbn. by rewrite Hu.
  - intros key value ttl e1 -> Hc. cbn -[existsb]. by rewrite Hc.
  - intros key value ttl e ->. done.
  - intros key value ttl text e -> Hu. cbn. by rewrite Hu.
  - intros key value ttl text raw e s -> Hu Hs. cbn. rewrite Hu. cbn.
    by rewrite Hs.
Qed.

Lemma cache_never_raises_witness :
  CacheManager.get cache "k" true (World 100 Down [])
  = (Ok VNone,
     World 100 Down ["Cache get error: " +:+ str_exn unreachable])
  ∧ CacheManager.set cache "k" tuple_keyed None true (World 100 Down [])
    = (Ok false,
       World 100 Down ["Cache set error: " +:+ str_exn unreachable])
  ∧ ∃ e db,
      Py.pickle_loads "hello" = Raise e
      ∧ db = <["k" := Entry (RString "hello") None]> ∅
      ∧ CacheManager.get cache "k" true (World 100 db [])
        = (Ok VNone, World 100 db ["Cache get error: " +:+ str_exn e]).
Proof.
  pose proof (cache_never_raises (R := down) cache (World 100 Down []))
    as (_ & _ & _ & _ & _ & _ & Hget & _ & _ & Hset & _).
  split; [apply (Hget "k" true unreachable Down); reflexivity|].
  split.
  { eapply (Hset "k" tuple_keyed None).
    - vm_compute. reflexivity.
    - reflexivity.
    - vm_compute. reflexivity.
    - reflexivity. }
  destruct (Py.pickle_loads "hello") as [v|e] eqn:Hp;
    [vm_compute in Hp; discriminate|].
  destruct (Py.json_loads "hello") as [v|e1] eqn:Hj;
    [vm_compute in Hj; discriminate|].
  exists e, (<["k" := Entry (RString "hello") None]> ∅).
  split; [reflexivity|]. split; [reflexivity|].
  pose proof (cache_never_raises cache
                (World 100 (<["k" := Entry (RString "hello") None]> ∅) []))
    as (_ & _ & _ & _ & _ & _ & _ & _ & _ & _ & _ & _ & _ & _ & _
        & Hboth & _).
  apply (Hboth "k" "hello" "hello" e1 e).
  - reflexivity.
  - reflexivity.
  - exact Hj.
  - vm_compute in Hj. injection Hj as <-. reflexivity.
  - exact Hp.
Defined.

(** * Further properties *)

(** ** The limiter and its probe *)

Section Probe.
Implicit Types (db : gmap string entry) (z : gmap string Z).

Lemma evict_mono t1 t2 window z :
  t1 ≤ t2 → evict t2 window (evict t1 window z) = evict t2 window z.
Proof.
  intros Ht. apply map_eq; intros m. apply option_eq; intros s.
  unfold evict. rewrite !map_lookup_filter_Some.
  unfold MemRedis.outside; simpl. split; [naive_solver|].
  intros [Hm Hout]. split; [split; [done|lia]|done].
Qed.




(** The world [get_remaining_requests] leaves: the store after the
    eviction, nothing printed. *)
Lemma get_remaining_world key limit window now db out z :
  zset_view now key db = Some z →
  RateLimiter.get_remaining_requests key limit window (World now db out)
  = (Ok (Z.max 0 (limit - Z.of_nat (size (evict now window z)))),
     World now
       (MemRedis.zexec now (ZRemRangeByScore key 0 (now - window)) db).2
       out).
Proof.
  intros Hview. unfold zset_view in Hview.
  unfold RateLimiter.get_remaining_requests, try_except, mbind, M_bind, bind,
    time_time, call, mret, M_ret, ret. simpl.
  destruct (MemRedis.fetch now key db) as [[[b|z0] d]|] eqn:Hf;
    simplify_eq/=.
  - fold (evict now window z).
    pose proof (fetch_alive _ _ _ _ Hf) as Ha.
    unfold MemRedis.alive in Ha; simpl in Ha.
    destruct (decide (size (evict now window z) = 0%nat)) as [Hz|Hz].
    + rewrite fetch_delete_eq. simpl. by rewrite Hz.
    + rewrite fetch_insert_eq. unfold MemRedis.alive; simpl.
      by rewrite Ha.
  - rewrite Hf. simpl. by rewrite evict_empty, map_size_empty.
Qed.

Lemma fetch_Some_inv now key db e :
  MemRedis.fetch now key db = Some e →
  db !! key = Some e ∧ MemRedis.alive now e = true.
Proof.
  unfold MemRedis.fetch. destruct (db !! key) as [e'|]; [|done].
  destruct (MemRedis.alive now e') eqn:Ha; [|done]. by intros [= <-].
Qed.

(** What is gone stays gone. *)
Lemma fetch_None_later now t' key db :
  now ≤ t' →
  MemRedis.fetch now key db = None → MemRedis.fetch t' key db = None.
Proof.
  intros Ht. unfold MemRedis.fetch, MemRedis.alive.
  destruct (db !! key) as [[v [d|]]|]; simpl; [|done..].
  case_bool_decide; [done|]. intros _.
  by rewrite bool_decide_eq_false_2 by lia.
Qed.

(** What a later reader sees of the log after the eviction. *)
Lemma zrem_view now t' key window db z :
  now ≤ t' →
  zset_view now key db = Some z →
  ∃ z', zset_view t' key db = Some z'
        ∧ zset_view t' key
            (MemRedis.zexec now (ZRemRangeByScore key 0 (now - window)) db).2
          = Some (evict now window z').
Proof.
  intros Ht Hview. unfold zset_view in *. simpl.
  destruct (MemRedis.fetch now key db) as [[[b|z0] d]|] eqn:Hf;
    simplify_eq/=.
  - fold (evict now window z).
    destruct (fetch_Some_inv _ _ _ _ Hf) as [Hk Ha].
    assert (MemRedis.fetch t' key db
            = if MemRedis.alive t' (Entry (RZSet z) d)
              then Some (Entry (RZSet z) d) else None) as Hf'
      by (unfold MemRedis.fetch; by rewrite Hk).
    rewrite Hf'.
    assert (MemRedis.alive t' (Entry (RZSet (evict now window z)) d)
            = MemRedis.alive t' (Entry (RZSet z) d)) as Ha' by done.
    case_decide as Hz.
    + rewrite fetch_delete_eq. apply map_size_empty_inv in Hz.
      destruct (MemRedis.alive t' _).
      * exists z. by rewrite Hz.
      * exists ∅. by rewrite evict_empty.
    + rewrite fetch_insert_eq, Ha'.
      destruct (MemRedis.alive t' _).
      * by exists z.
      * exists ∅. by rewrite evict_empty.
  - rewrite (fetch_None_later now t') by done.
    exists ∅. by rewrite evict_empty.
Qed.
End Probe.

(** X1.  [get_remaining_requests] is a probe: called at any earlier time,
    with the same window, it changes neither the decision of a later
    [is_allowed] nor the store that call leaves. *)
Theorem probe_does_not_change_decisions key limit limit' window t1 t2
    (db : gmap string entry) out z :
  0 < window →
  t1 ≤ t2 →
  zset_view t1 key db = Some z →
  RateLimiter.is_allowed key limit window
    (at_time t2
       (RateLimiter.get_remaining_requests key limit' window
          (World t1 db out)).2)
  = RateLimiter.is_allowed key limit window (World t2 db out).
Proof.
  intros HW Ht Hview.
  rewrite (get_remaining_world _ _ _ _ _ _ z Hview).
  unfold at_time; cbn [snd clock redis stdout].
  destruct (zrem_view t1 t2 key window db z Ht Hview) as (z' & Hv & Hv').
  rewrite (is_allowed_step _ _ _ _ _ _ _ HW Hv').
  rewrite (is_allowed_step _ _ _ _ _ _ _ HW Hv).
  rewrite evict_mono by done. do 2 f_equal.
  apply map_eq; intros k. destruct (decide (k = key)) as [->|Hne].
  - by rewrite !lookup_insert_eq.
  - rewrite !lookup_insert_ne by done.
    by apply (zexec_frame t1 (ZRemRangeByScore key 0 (t1 - window))).
Qed.

Lemma probe_does_not_change_decisions_witness :
  RateLimiter.is_allowed "k" 2 60
    (at_time 1070
       (RateLimiter.get_remaining_requests "k" 2 60
          (at_time 1065 (calls "k" 2 60 [1000; 1030] fresh))).2)
  = RateLimiter.is_allowed "k" 2 60
      (at_time 1070 (calls "k" 2 60 [1000; 1030] fresh)).
Proof.
  eapply (probe_does_not_change_decisions "k" 2 2 60 1065 1070).
  - lia.
  - lia.
  - vm_compute. reflexivity.
Defined.

(** X2.  Every recorded call, allowed or denied, uses up one unit: on a key
    that starts absent, after calls at pairwise distinct seconds the quota
    left at time [t] is the limit less the calls inside the window of [t],
    and never below 0. *)
Theorem remaining_after_calls key limit limit' window ts t
    (w : world (gmap string entry)) :
  0 < window →
  redis w !! key = None →
  Sorted Z.le (0 :: ts ++ [t]) →
  NoDup ts →
  (RateLimiter.get_remaining_requests key limit window
     (at_time t (calls key limit' window ts w))).1
  = Ok (Z.max 0 (limit - Z.of_nat
                           (length (filter (λ s, t - window < s) ts)))).
Proof.
  intros HW Hfresh Hs Hnd.
  assert (Sorted Z.le (0 :: ts) ∧ List.last ts 0 ≤ t) as [Hs1 Hlast].
  { clear -Hs.
    cut (∀ a, Sorted Z.le (a :: ts ++ [t]) →
              Sorted Z.le (a :: ts) ∧ List.last ts a ≤ t); [by auto|].
    clear Hs. induction ts as [|b ts IH]; intros a Hs; simpl in *.
    - apply Sorted_inv in Hs as [_ Hhd%HdRel_inv].
      split; [repeat constructor|]. lia.
    - apply Sorted_inv in Hs as [Hs Hhd%HdRel_inv].
      destruct (IH _ Hs) as [? ?].
      split; [constructor; [done|by constructor]|].
      destruct ts as [|c l]; [done|].
      by rewrite (last_cons_default c l a b). }
  pose proof (calls_inv key limit' window ts ∅ 0 w HW (Z.le_refl 0)
                (window_inv_fresh _ _ _ _ Hfresh) Hs1) as Hinv.
  rewrite (right_id_L ∅ (∪)) in Hinv.
  destruct (calls key limit' window ts w) as [t0 db out].
  unfold at_time; simpl in *.
  rewrite (get_remaining_inv key limit window _ _ t db out Hlast Hinv).
  by rewrite size_in_window_NoDup.
Qed.

Lemma remaining_after_calls_witness :
  (RateLimiter.get_remaining_requests "k" 5 60
     (at_time 1070 (calls "k" 5 60 [1000; 1030; 1060] fresh))).1
  = Ok (Z.max 0 (5 - Z.of_nat
                       (length (filter (λ s, 1070 - 60 < s)
                                       [1000; 1030; 1060])))).
Proof.
  apply (remaining_after_calls "k" 5 5 60 [1000; 1030; 1060] 1070 fresh).
  - lia.
  - reflexivity.
  - repeat constructor; lia.
  - repeat constructor; set_solver.
Defined.

(** X3.  For a limit that is not negative, [get_remaining_requests] answers
    between 0 and the limit, whatever the store holds under the key, a byte
    string included. *)
Theorem remaining_within_bounds key limit window t
    (db : gmap string entry) out :
  0 ≤ limit →
  ∃ r, (RateLimiter.get_remaining_requests key limit window
          (World t db out)).1 = Ok r
       ∧ 0 ≤ r ≤ limit.
Proof.
  intros Hl. destruct (zset_view t key db) as [z|] eqn:Hview.
  - rewrite (get_remaining_step _ _ _ _ _ _ z Hview).
    eexists. split; [done|]. lia.
  - exists limit. split; [|lia].
    unfold zset_view in Hview.
    unfold RateLimiter.get_remaining_requests, try_except, mbind, M_bind,
      bind, time_time, call, mret, M_ret, ret. simpl.
    by destruct (MemRedis.fetch t key db) as [[[b|z] d]|].
Qed.

Lemma remaining_within_bounds_witness :
  ∃ r, (RateLimiter.get_remaining_requests "k" 5 60
          (at_time 1070 (calls "k" 5 60 [1000; 1030; 1060] fresh))).1 = Ok r
       ∧ 0 ≤ r ≤ 5.
Proof.
  apply (remaining_within_bounds "k" 5 60 1070). lia.
Defined.

(** X4.  Every call of [is_allowed], allowed or denied, refreshes the
    lifetime of the key, for a window within the range that the server
    accepts as a lifetime: the key is in the store at every clock reading
    before one window after the call, and gone at every clock reading
    after that.  Nothing is stated for the reading [t + window] itself,
    where the server, which counts milliseconds from the moment it ran
    EXPIRE, may still hold the key. *)
Theorem limiter_key_expires key limit window t t'
    (db : gmap string entry) out z :
  0 < window →
  (t + window + 1) * 1000 < 2 ^ 63 →
  zset_view t key db = Some z →
  let db' :=
    redis (RateLimiter.is_allowed key limit window (World t db out)).2 in
  (t' < t + window → MemRedis.exists_ t' key db' = (Ok 1, db'))
  ∧ (t + window < t' → MemRedis.exists_ t' key db' = (Ok 0, db')).
Proof.
  intros HW _ Hview db'. subst db'.
  rewrite (is_allowed_step _ _ _ _ _ _ z HW Hview). cbn [snd redis].
  unfold MemRedis.exists_. rewrite fetch_insert_eq.
  unfold MemRedis.alive; simpl.
  split; intros Ht; case_bool_decide; done || lia.
Qed.

Lemma limiter_key_expires_witness :
  let db' := redis (RateLimiter.is_allowed "k" 1 60 (at_time 1000 fresh)).2 in
  MemRedis.exists_ 1059 "k" db' = (Ok 1, db')
  ∧ MemRedis.exists_ 1061 "k" db' = (Ok 0, db').
Proof.
  split.
  - apply (limiter_key_expires "k" 1 60 1000 1059 ∅ [] ∅); [lia|lia|..|lia].
    reflexivity.
  - apply (limiter_key_expires "k" 1 60 1000 1061 ∅ [] ∅); [lia|lia|..|lia].
    reflexivity.
Defined.

(** ** The decorator *)




(** X6.  The decorator fails open with the limiter: with any client whose
    pipeline raises, the wrapped function is run, in a world where the only
    trace of the failure is one printed line. *)
Theorem rate_limit_store_outage `{RedisClient R} {K A : Type}
    (limit window : Z) (func : list arg → K → M (world R) A)
    (args : list arg) (kwargs : K) req key (w : world R) e s :
  find_request args = Some req →
  get_rate_limit_key req (state_user_id req) = Ok key →
  r_pipeline_execute (clock w)
    [ ZRemRangeByScore key 0 (clock w - window);
      ZCard key;
      ZAdd key (pretty (clock w)) (clock w);
      Expire key window ] (redis w) = (Raise e, s) →
  rate_limit limit window func args kwargs w
  = func args kwargs
      (World (clock w) s
         (stdout w ++ ["Rate limiting error: " +:+ str_exn e])).
Proof.
  intros Hreq Hkey Hpipe. unfold rate_limit. rewrite Hreq, Hkey.
  unfold RateLimiter.is_allowed. unfold_monad. cbn [fst snd].
  by rewrite Hpipe.
Qed.

Lemma rate_limit_store_outage_witness :
  rate_limit 1 60 (λ (_ : list arg) (_ : unit), mret (VStr "served"))
    [ARequest (Request (Some "10.0.0.1") None)] () (World 1000 Down [])
  = (Ok (VStr "served"),
     World 1000 Down ["Rate limiting error: " +:+ str_exn unreachable]).
Proof.
  exact (rate_limit_store_outage (R := down) 1 60
           (λ (_ : list arg) (_ : unit), mret (VStr "served"))
           [ARequest (Request (Some "10.0.0.1") None)] ()
           (Request (Some "10.0.0.1") None) "rate_limit:ip:10.0.0.1"
           (World 1000 Down []) unreachable Down
           eq_refl eq_refl eq_refl).
Defined.

(** X7.  Within a scope, keys are as distinct as the identities: two
    subject ids, neither 0, get the same key exactly when they are the same
    id, whatever the origins of the two requests; two origins without a
    subject id get the same key exactly when they are the same origin. *)
Theorem rate_limit_key_injective :
  (∀ req1 req2 uid1 uid2,
     uid1 ≠ 0 → uid2 ≠ 0 →
     (get_rate_limit_key req1 (Some uid1) = get_rate_limit_key req2 (Some uid2)
      ↔ uid1 = uid2))
  ∧ (∀ host1 host2 state1 state2,
       get_rate_limit_key (Request (Some host1) state1) None
       = get_rate_limit_key (Request (Some host2) state2) None
       ↔ host1 = host2).
Proof.
  split.
  - intros req1 req2 uid1 uid2 H1 H2. unfold get_rate_limit_key; simpl.
    rewrite !bool_decide_eq_true_2 by done.
    split; [|by intros ->].
    intros [= Heq]. by apply (inj pretty).
  - intros host1 host2 state1 state2. unfold get_rate_limit_key; simpl.
    split; [|by intros ->]. by intros [= Heq].
Qed.

Lemma rate_limit_key_injective_witness :
  get_rate_limit_key (Request (Some "10.0.0.1") None) (Some 7)
  = get_rate_limit_key (Request (Some "10.0.0.2") None) (Some 7).
Proof.
  apply (proj1 rate_limit_key_injective
           (Request (Some "10.0.0.1") None) (Request (Some "10.0.0.2") None)
           7 7).
  - lia.
  - lia.
  - reflexivity.
Defined.

(** ** The cache: removal *)

Section Removal.
Implicit Types (db : gmap string entry) (ks : list string).

Lemma delete_keys_lookup now ks :
  ∀ db k, (MemRedis.delete_keys now ks db).2 !! k
          = if decide (k ∈ ks) then None else db !! k.
Proof.
  induction ks as [|k0 ks IH]; intros db k; simpl.
  - done.
  - specialize (IH (delete k0 db) k).
    destruct (MemRedis.delete_keys now ks (delete k0 db)) as [n db1].
    simpl in *. rewrite IH.
    destruct (decide (k = k0)) as [->|Hne].
    + rewrite lookup_delete_eq. rewrite (decide_True (P := k0 ∈ k0 :: ks))
        by set_solver. by case_decide.
    + rewrite lookup_delete_ne by done.
      destruct (decide (k ∈ ks)).
      * by rewrite decide_True by set_solver.
      * by rewrite decide_False by set_solver.
Qed.

Lemma delete_keys_count now ks :
  ∀ db, NoDup ks →
        (∀ k, k ∈ ks → is_Some (MemRedis.fetch now k db)) →
        (MemRedis.delete_keys now ks db).1 = Z.of_nat (length ks).
Proof.
  induction ks as [|k0 ks IH]; intros db Hnd Hlive; [done|]. simpl.
  apply NoDup_cons in Hnd as [Hk0 Hnd].
  specialize (IH (delete k0 db) Hnd).
  destruct (MemRedis.delete_keys now ks (delete k0 db)) as [n db1].
  simpl in *. rewrite IH.
  - destruct (Hlive k0) as [e ->]; [set_solver|]. lia.
  - intros k Hk. rewrite fetch_delete_ne by set_solver.
    apply Hlive. set_solver.
Qed.

Lemma elem_of_keys now pattern db k :
  k ∈ (filter (λ k, MemRedis.key_matches pattern k
                    ∧ is_Some (MemRedis.fetch now k db))
              (map_to_list db).*1)
  ↔ ∃ e, db !! k = Some e ∧ matched now pattern (k, e).
Proof.
  rewrite list_elem_of_filter, list_elem_of_fmap. unfold matched; simpl.
  split.
  - intros [[Hg [e He]] _]. exists e.
    destruct (fetch_Some_inv _ _ _ _ He) as [Hk Ha].
    split; [done|]. split; [|done].
    by destruct (MemRedis.key_matches _ _).
  - intros (e & Hk & Hg & Ha). split.
    + split; [by rewrite Hg|]. exists e. unfold MemRedis.fetch.
      by rewrite Hk, Ha.
    + exists (k, e). split; [done|]. by apply elem_of_map_to_list.
Qed.

(** As many keys are listed as entries are matched. *)
Lemma length_keys now pattern db :
  length (filter (λ k, MemRedis.key_matches pattern k
                       ∧ is_Some (MemRedis.fetch now k db))
                 (map_to_list db).*1)
  = size (filter (matched now pattern) db).
Proof.
  rewrite <-length_map_to_list.
  rewrite <-(length_fmap fst (map_to_list (filter _ db))).
  apply Permutation_length, NoDup_Permutation.
  - apply NoDup_filter, NoDup_fst_map_to_list.
  - apply NoDup_fst_map_to_list.
  - intros k. rewrite elem_of_keys, list_elem_of_fmap. split.
    + intros (e & Hk & Hm). exists (k, e). split; [done|].
      apply elem_of_map_to_list. by apply map_lookup_filter_Some.
    + intros ([k1 e] & -> & Hin). exists e.
      apply elem_of_map_to_list in Hin.
      by apply map_lookup_filter_Some in Hin.
Qed.
End Removal.

(** X8.  For a pattern of [*], [?] and literal characters,
    [clear_pattern] returns the number of live entries whose key matches
    the pattern, removes exactly those entries, and leaves every other
    entry of the store as it was. *)
Theorem clear_pattern_removes_the_matches `{Codec} self pattern t
    (db : gmap string entry) out :
  MemRedis.simple_pattern pattern = true →
  ∃ db1,
    CacheManager.clear_pattern self pattern (World t db out)
    = (Ok (Z.of_nat (size (filter (matched t pattern) db))),
       World t db1 out)
    ∧ ∀ k, db1 !! k
           = match db !! k with
             | Some e => if decide (matched t pattern (k, e)) then None
                         else Some e
             | None => None
             end.
Proof.
  intros Hsimple.
  unfold CacheManager.clear_pattern. unfold_monad.
  cbn [clock redis stdout r_keys mem_redis]. unfold MemRedis.keys.
  rewrite Hsimple. simpl.
  set (ks := filter _ (map_to_list db).*1).
  assert (∀ k, k ∈ ks ↔ ∃ e, db !! k = Some e ∧ matched t pattern (k, e))
    as Hin by apply elem_of_keys.
  assert (Z.of_nat (length ks)
          = Z.of_nat (size (filter (matched t pattern) db)))
    as Hlen by (f_equal; apply length_keys).
  assert (NoDup ks) as Hnd
    by (subst ks; apply NoDup_filter, NoDup_fst_map_to_list).
  assert (∀ k, (if decide (k ∈ ks) then None else db !! k)
               = match db !! k with
                 | Some e => if decide (matched t pattern (k, e)) then None
                             else Some e
                 | None => None
                 end) as Hlook.
  { intros k. destruct (db !! k) as [e|] eqn:Hk.
    - destruct (decide (matched t pattern (k, e))) as [Hm|Hm].
      + rewrite decide_True; [done|]. apply Hin. eauto.
      + rewrite decide_False; [done|]. intros (e1 & He1 & Hm1)%Hin.
        by simplify_eq.
    - by case_decide. }
  pose proof (delete_keys_lookup t ks db) as Hdel.
  pose proof (delete_keys_count t ks db Hnd) as Hcnt.
  clearbody ks.
  destruct ks as [|k0 ks1].
  - exists db. split; [by rewrite <-Hlen|].
    intros k. rewrite <-Hlook. by rewrite decide_False by set_solver.
  - destruct (MemRedis.delete_keys t (k0 :: ks1) db) as [n db1] eqn:Hd.
    cbn [fst snd] in *. exists db1. split.
    + cbn [clock redis stdout]. rewrite Hd. cbn [fst snd].
      rewrite Hcnt, Hlen; [done|].
      intros k (e & Hk & _ & Ha)%Hin. exists e. unfold MemRedis.fetch.
      simpl in Ha. by rewrite Hk, Ha.
    + intros k. by rewrite Hdel, Hlook.
Qed.

(** X9.  [delete] returns whether the key was live, and removes it: from
    then on, at any time, [get] returns [None] and [exists] returns
    [False] for that key, nothing is printed, and the other keys keep
    their entries. *)
Theorem delete_removes_the_key `{Codec} self key d t t'
    (db : gmap string entry) out :
  let r := CacheManager.delete self key (World t db out) in
  r.1 = Ok (bool_decide (is_Some (MemRedis.fetch t key db)))
  ∧ stdout r.2 = out
  ∧ CacheManager.get self key d (at_time t' r.2) = (Ok VNone, at_time t' r.2)
  ∧ CacheManager.exists_ self key (at_time t' r.2)
    = (Ok false, at_time t' r.2)
  ∧ ∀ k, k ≠ key → redis r.2 !! k = db !! k.
Proof.
  intros r. subst r. unfold CacheManager.delete. unfold_monad.
  cbn [clock redis stdout r_delete mem_redis MemRedis.delete_keys fst snd].
  unfold at_time. cbn [clock redis stdout].
  split.
  { f_equal. destruct (MemRedis.fetch t key db) as [e|].
    - rewrite bool_decide_eq_true_2 by lia.
      by rewrite bool_decide_eq_true_2 by eauto.
    - rewrite bool_decide_eq_false_2 by lia.
      by rewrite bool_decide_eq_false_2 by (by intros [??]). }
  split; [done|]. split.
  { apply get_absent. apply fetch_delete_eq. }
  split.
  { unfold CacheManager.exists_. unfold_monad.
    cbn [clock redis stdout r_exists mem_redis fst snd].
    unfold MemRedis.exists_. by rewrite fetch_delete_eq. }
  intros k Hk. by rewrite lookup_delete_ne.
Qed.



(** ** The cache: memoization *)

(** X11.  [get_or_set] memoizes.  On a miss it runs the producer, returns
    the producer's own value and stores it; a later call while the entry
    lives returns the value as decoded from the store, without running any
    producer and without changing the world. *)
Theorem get_or_set_memoizes `{Codec} self key ttl
    (factory : M (world (gmap string entry)) pyval)
    v v' text text' t t1 t2 (db db1 : gmap string entry) out out1 :
  MemRedis.fetch t key db = None →
  factory (World t db out) = (Ok v, World t1 db1 out1) →
  json_dumps v = Ok text →
  utf8_decode text = Ok text' →
  json_loads text' = Ok v' →
  v' ≠ VNone →
  0 < py_or ttl (default_ttl self) →
  t2 < t1 + py_or ttl (default_ttl self) →
  let first := CacheManager.get_or_set self key factory ttl (World t db out) in
  first.1 = Ok v
  ∧ ∀ factory2,
      CacheManager.get_or_set self key factory2 ttl (at_time t2 first.2)
      = (Ok v', at_time t2 first.2).
Proof.
  intros Hmiss Hf Hj Hu Hl Hv Httl Ht2 first.
  assert (first
          = (Ok v,
             World t1
               (<[key := Entry (RString text)
                           (Some (t1 + py_or ttl (default_ttl self)))]> db1)
               out1)) as ->.
  { subst first. unfold CacheManager.get_or_set.
    unfold mbind at 1, M_bind at 1, bind at 1.
    rewrite (get_absent _ _ _ _ _ _ Hmiss).
    unfold mbind at 1, M_bind at 1, bind at 1. rewrite Hf.
    unfold mbind at 1, M_bind at 1, bind at 1.
    by rewrite (set_json _ _ _ _ text) by done. }
  cbn [fst snd]. split; [done|].
  intros factory2. unfold at_time. cbn [clock redis stdout].
  unfold CacheManager.get_or_set. unfold mbind, M_bind, bind.
  erewrite get_json; [| |exact Hu|exact Hl].
  - by destruct v'.
  - rewrite fetch_stored. by rewrite bool_decide_eq_true_2.
Qed.

Lemma get_or_set_memoizes_witness :
  let first :=
    CacheManager.get_or_set cache "k" (mret (VTuple [VInt 1; VInt 2])) None
      (World 1000 (∅ : gmap string entry) []) in
  first.1 = Ok (VTuple [VInt 1; VInt 2])
  ∧ ∀ factory2,
      CacheManager.get_or_set cache "k" factory2 None (at_time 1010 first.2)
      = (Ok (VList [VInt 1; VInt 2]), at_time 1010 first.2).
Proof.
  eapply (get_or_set_memoizes cache "k" None
            (mret (VTuple [VInt 1; VInt 2]))
            (VTuple [VInt 1; VInt 2]) (VList [VInt 1; VInt 2])
            _ _ 1000 1000 1010 ∅ ∅ [] []).
  - reflexivity.
  - reflexivity.
  - vm_compute. reflexivity.
  - vm_compute. reflexivity.
  - vm_compute. reflexivity.
  - discriminate.
  - vm_compute. reflexivity.
  - vm_compute. reflexivity.
Defined.

(** X12.  A stored [None] is never a hit: when the value read back from the
    store is [None], [get_or_set] runs the producer again and stores its
    value again, as on a miss. *)
Theorem get_or_set_none_is_a_miss `{Codec} self key ttl
    (factory : M (world (gmap string entry)) pyval)
    stored dl text t (db : gmap string entry) out :
  MemRedis.fetch t key db = Some (Entry (RString stored) dl) →
  utf8_decode stored = Ok text →
  json_loads text = Ok VNone →
  CacheManager.get_or_set self key factory ttl (World t db out)
  = (value ← factory;
     _ ← CacheManager.set self key value ttl true;
     mret value) (World t db out).
Proof.
  intros Hf Hu Hl. unfold CacheManager.get_or_set.
  unfold mbind at 1, M_bind at 1, bind at 1.
  by erewrite get_json; [|exact Hf|exact Hu|exact Hl].
Qed.

Lemma get_or_set_none_is_a_miss_witness :
  let w := (CacheManager.set cache "k" VNone None true
              (World 1000 (∅ : gmap string entry) [])).2 in
  CacheManager.get_or_set cache "k" (mret (VInt 7)) None w
  = (value ← mret (VInt 7);
     _ ← CacheManager.set cache "k" value None true;
     mret value) w.
Proof.
  eapply (get_or_set_none_is_a_miss cache "k" None (mret (VInt 7))).
  - vm_compute. reflexivity.
  - vm_compute. reflexivity.
  - vm_compute. reflexivity.
Defined.

(** X13.  [get_or_set] does not shield its caller from the producer: on a
    miss, an exception of the producer passes through, and nothing is
    stored or printed after it. *)
Theorem get_or_set_producer_failure `{Codec} self key ttl
    (factory : M (world (gmap string entry)) pyval)
    e w1 t (db : gmap string entry) out :
  MemRedis.fetch t key db = None →
  factory (World t db out) = (Raise e, w1) →
  CacheManager.get_or_set self key factory ttl (World t db out)
  = (Raise e, w1).
Proof.
  intros Hmiss Hf. unfold CacheManager.get_or_set.
  unfold mbind at 1, M_bind at 1, bind at 1.
  rewrite (get_absent _ _ _ _ _ _ Hmiss).
  unfold mbind, M_bind, bind. by rewrite Hf.
Qed.

Lemma get_or_set_producer_failure_witness :
  CacheManager.get_or_set cache "k"
    (raise (Exn RuntimeError "no data")) None
    (World 1000 (∅ : gmap string entry) [])
  = (Raise (Exn RuntimeError "no data"), World 1000 ∅ []).
Proof.
  apply (get_or_set_producer_failure cache "k" None
           (raise (Exn RuntimeError "no data"))).
  - reflexivity.
  - reflexivity.
Defined.

(** X14.  Without serialization the cache keeps text only: [set] with
    [serialize=False] followed by [get] with [deserialize=False], while the
    entry lives, returns the text of [str(value)] as a [str], whatever the
    type of the value was. *)
Theorem raw_mode_round_trip `{Codec} self key v ttl text raw text'
    t t' (db : gmap string entry) out :
  py_str v = Ok text →
  utf8_encode text = Ok raw →
  utf8_decode raw = Ok text' →
  0 < py_or ttl (default_ttl self) →
  t' < t + py_or ttl (default_ttl self) →
  let stored := CacheManager.set self key v ttl false (World t db out) in
  stored.1 = Ok true
  ∧ CacheManager.get self key false (at_time t' stored.2)
    = (Ok (VStr text'), at_time t' stored.2).
Proof.
  intros Hs He Hd Httl Ht stored. subst stored.
  unfold CacheManager.set, CacheManager.get. unfold_monad.
  rewrite Hs. cbn [fst snd]. rewrite He.
  cbn [fst snd clock redis stdout r_setex mem_redis].
  unfold MemRedis.setex. rewrite decide_False by lia.
  cbn [fst snd clock redis stdout r_get mem_redis MemRedis.encode].
  split; [done|]. unfold at_time. cbn [clock redis stdout].
  unfold MemRedis.get. rewrite fetch_stored.
  rewrite bool_decide_eq_true_2 by done. cbn [fst snd]. by rewrite Hd.
Qed.

Lemma raw_mode_round_trip_witness :
  let stored :=
    CacheManager.set cache "k" (VInt 42) None false
      (World 1000 (∅ : gmap string entry) []) in
  stored.1 = Ok true
  ∧ CacheManager.get cache "k" false (at_time 1010 stored.2)
    = (Ok (VStr "42"), at_time 1010 stored.2).
Proof.
  eapply (raw_mode_round_trip cache "k" (VInt 42) None).
  - vm_compute. reflexivity.
  - vm_compute. reflexivity.
  - vm_compute. reflexivity.
  - vm_compute. reflexivity.
  - vm_compute. reflexivity.
Defined.

(** X15.  [cache_result] memoizes by prefix, function name and the text of
    the arguments.  The first call runs the function, returns its value and
    stores it; while the entry lives, a call with the same arguments returns
    the value as decoded from the store and runs nothing, and so does a call
    of any other function wrapped under the same name and prefix. *)
Theorem cache_result_memoizes `{Codec} (hash : string → Z) ttl
    key_prefix func_name
    (func : list pyval → list (pyval * pyval)
            → M (world (gmap string entry)) pyval)
    args kwargs str_args str_kwargs v v' text text' t t1 t2
    (db db1 : gmap string entry) out out1 :
  py_str (VTuple args) = Ok str_args →
  py_str (VDict kwargs) = Ok str_kwargs →
  MemRedis.fetch t
    (key_prefix +:+ ":" +:+ func_name +:+ ":"
     +:+ pretty (hash (str_args +:+ str_kwargs))) db = None →
  func args kwargs (World t db out) = (Ok v, World t1 db1 out1) →
  json_dumps v = Ok text →
  utf8_decode text = Ok text' →
  json_loads text' = Ok v' →
  v' ≠ VNone →
  0 < ttl →
  t2 < t1 + ttl →
  let first :=
    cache_result hash ttl key_prefix func_name func args kwargs
      (World t db out) in
  first.1 = Ok v
  ∧ ∀ func2,
      cache_result hash ttl key_prefix func_name func2 args kwargs
        (at_time t2 first.2)
      = (Ok v', at_time t2 first.2).
Proof.
  intros Ha Hk Hmiss Hf Hj Hu Hl Hv Httl Ht2 first.
  set (cache_key := key_prefix +:+ ":" +:+ func_name +:+ ":"
                    +:+ pretty (hash (str_args +:+ str_kwargs))) in *.
  assert (py_or (Some ttl) (default_ttl cache) = ttl) as Hor.
  { unfold py_or. by rewrite bool_decide_eq_true_2 by lia. }
  assert (first
          = (Ok v,
             World t1
               (<[cache_key := Entry (RString text) (Some (t1 + ttl))]> db1)
               out1)) as ->.
  { subst first. unfold cache_result.
    unfold mbind at 1, M_bind at 1, bind at 1, lift at 1. rewrite Ha.
    cbn [fst snd].
    unfold mbind at 1, M_bind at 1, bind at 1, lift at 1. rewrite Hk.
    cbn [fst snd]. fold cache_key.
    unfold mbind at 1, M_bind at 1, bind at 1.
    rewrite (get_absent _ _ _ _ _ _ Hmiss).
    unfold mbind at 1, M_bind at 1, bind at 1. rewrite Hf.
    unfold mbind at 1, M_bind at 1, bind at 1.
    rewrite (set_json _ _ _ _ text) by (by rewrite ?Hor).
    by rewrite Hor. }
  cbn [fst snd]. split; [done|].
  intros func2. unfold at_time. cbn [clock redis stdout].
  unfold cache_result.
  unfold mbind at 1, M_bind at 1, bind at 1, lift at 1. rewrite Ha.
  cbn [fst snd].
  unfold mbind at 1, M_bind at 1, bind at 1, lift at 1. rewrite Hk.
  cbn [fst snd]. fold cache_key.
  unfold mbind, M_bind, bind.
  erewrite get_json; [| |exact Hu|exact Hl].
  - by destruct v'.
  - rewrite fetch_stored. by rewrite bool_decide_eq_true_2.
Qed.

Lemma cache_result_memoizes_witness :
  let first :=
    cache_result (λ _, 5) 300 "stats" "usage"
      (λ _ _, mret (VDict [(VStr "total", VInt 1250)])) [VInt 24] []
      (World 1000 (∅ : gmap string entry) []) in
  first.1 = Ok (VDict [(VStr "total", VInt 1250)])
  ∧ ∀ func2,
      cache_result (λ _, 5) 300 "stats" "usage" func2 [VInt 24] []
        (at_time 1299 first.2)
      = (Ok (VDict [(VStr "total", VInt 1250)]), at_time 1299 first.2).
Proof.
  eapply (cache_result_memoizes (λ _, 5) 300 "stats" "usage"
            (λ _ _, mret (VDict [(VStr "total", VInt 1250)]))
            [VInt 24] [] _ _ _ _ _ _ 1000 1000 1299 ∅ ∅ [] []).
  - vm_compute. reflexivity.
  - vm_compute. reflexivity.
  - reflexivity.
  - reflexivity.
  - vm_compute. reflexivity.
  - vm_compute. reflexivity.
  - vm_compute. reflexivity.
  - discriminate.
  - lia.
  - lia.
Defined.

(** ** The limiter and the cache on one key *)

(** X16.  The two modules share one server, and a limiter key that holds a
    cache entry disables the limiter: [is_allowed] then admits every call,
    whatever the limit, printing the store's complaint; and the call
    rewrites the lifetime of that cache entry to one window. *)
Theorem limiter_on_a_cache_key key limit window t
    (db : gmap string entry) out stored dl :
  0 < window →
  MemRedis.fetch t key db = Some (Entry (RString stored) dl) →
  RateLimiter.is_allowed key limit window (World t db out)
  = (Ok true,
     World t (<[key := Entry (RString stored) (Some (t + window))]> db)
       (out ++ ["Rate limiting error: " +:+ str_exn MemRedis.wrongtype])).
Proof.
  intros HW Hf.
  unfold RateLimiter.is_allowed, try_except, mbind, M_bind, bind, time_time,
    call, print, mret, M_ret, ret. simpl.
  unfold MemRedis.pipeline_execute. simpl.
  repeat (rewrite Hf; simpl).
  by rewrite decide_False by lia.
Qed.

Lemma limiter_on_a_cache_key_witness :
  (RateLimiter.is_allowed "k" 0 60
     (at_time 1010
        (CacheManager.set cache "k" (VInt 1) None true
           (World 1000 (∅ : gmap string entry) [])).2)).1
  = Ok true.
Proof.
  refine (f_equal fst
            (limiter_on_a_cache_key "k" 0 60 1010 _ [] "1" (Some 4600) _ _)).
  - lia.
  - vm_compute. reflexivity.
Defined.

(** ** A decorated endpoint under load *)

Section Served.
Context {K A : Type}.
Implicit Types (func : list arg → K → M (world (gmap string entry)) A).



End Served.



(** ** Examples on a store of three keys *)

Lemma clear_pattern_removes_the_matches_witness :
  MemRedis.simple_pattern "ns:*" = true
  ∧ (CacheManager.clear_pattern cache "ns:*" (World 1010 three_keys [])).1
    = Ok 2
  ∧ ∃ db1,
      redis (CacheManager.clear_pattern cache "ns:*"
               (World 1010 three_keys [])).2 = db1
      ∧ db1 !! "ns:1" = None ∧ db1 !! "ns:2" = None
      ∧ db1 !! "other:1" = three_keys !! "other:1".
Proof.
  assert (MemRedis.simple_pattern "ns:*" = true) as Hsimple
    by (vm_compute; reflexivity).
  split; [exact Hsimple|].
  destruct (clear_pattern_removes_the_matches cache "ns:*" 1010
              three_keys [] Hsimple) as (db1 & Hrun & Hlook).
  rewrite Hrun. cbn [fst snd redis]. split.
  - vm_compute. reflexivity.
  - exists db1. split; [done|]. rewrite !Hlook.
    vm_compute. repeat split; reflexivity.
Defined.

Lemma delete_removes_the_key_witness :
  let r := CacheManager.delete cache "ns:1" (World 1010 three_keys []) in
  r.1 = Ok true
  ∧ CacheManager.get cache "ns:1" true (at_time 1020 r.2)
    = (Ok VNone, at_time 1020 r.2)
  ∧ redis r.2 !! "ns:2" = three_keys !! "ns:2".
Proof.
  pose proof (delete_removes_the_key cache "ns:1" true 1010 1020
                three_keys []) as (Hret & _ & Hget & _ & Hframe).
  split; [|split].
  - rewrite Hret. vm_compute. reflexivity.
  - exact Hget.
  - apply Hframe. discriminate.
Defined.
